(** * PDF question answering: ingestion and retrieval over a vector store

    A shallow embedding of [vector_db.py], [data_loader.py], [custom_types.py]
    and the two workflow functions of [main.py], and of the functions of
    [streamlit_app.py] that wait for the output of a run.

    - Python [str] is a Rocq [string], read as the UTF-8 bytes of the text.
    - Python [int] is [Z]; list positions produced by [range(len(_))] are [nat].
    - Parsed JSON (payloads, event data, completions) is [json].
    - The Qdrant server, the OpenAI embeddings endpoint, the PDF reader and
      the sentence splitter are outside the repository.  The server's
      collections are a finite map; what the server accepts and what the
      other services answer is a parameter ([Externals]).
    - A call binds its keyword arguments to the parameters of the method
      called, as Python does, and raises [TypeError] when a required one is
      not given.
    - Every function that talks to a service runs in the monad [M]: it
      threads the server state and the log of service calls and may raise. *)

From Stdlib Require Import ZArith Lia Ascii String.
From Stdlib Require Import Floats.PrimFloat Floats.FloatOps Floats.SpecFloat.
From stdpp Require Import gmap strings list fin_maps pretty.

Local Open Scope Z_scope.

(** ** An optional text *)

(** [None] or a [str]: the [text] attribute of a document of the PDF reader
    and the status of a run. *)
Inductive pyval :=
| PyNone
| PyStr (s : string).

#[global] Instance pyval_eq_dec : EqDecision pyval.
Proof. solve_decision. Defined.

(** [bool(v)]: [None] and the empty string are false. *)
Definition truthy (v : pyval) : bool :=
  match v with
  | PyNone => false
  | PyStr s => negb (String.eqb s "")
  end.

(** ** JSON values *)

(** The payload of a stored point, the data of an event and the body of an
    answer reach the program as parsed JSON: [None], [bool], [int], [float],
    [str], [list] and [dict] with [str] keys. *)
Local Unset Elimination Schemes.
Inductive json :=
| JNull
| JBool (b : bool)
| JInt (n : Z)
| JFloat (x : float)
| JStr (s : string)
| JList (items : list json)
| JDict (items : gmap string json).
Local Set Elimination Schemes.

(** [bool(v)] *)
Definition json_truthy (v : json) : bool :=
  match v with
  | JNull => false
  | JBool b => b
  | JInt n => negb (n =? 0)
  | JFloat x => negb (PrimFloat.eqb x 0)
  | JStr s => negb (String.eqb s "")
  | JList items => match items with [] => false | _ :: _ => true end
  | JDict items => negb (bool_decide (items = ∅))
  end.

(** [type(v).__name__] *)
Definition type_name (v : json) : string :=
  match v with
  | JNull => "NoneType"
  | JBool _ => "bool"
  | JInt _ => "int"
  | JFloat _ => "float"
  | JStr _ => "str"
  | JList _ => "list"
  | JDict _ => "dict"
  end.

(** [d.get(key, dflt)] *)
Definition dict_get (d : gmap string json) (key : string) (dflt : json) : json :=
  default dflt (d !! key).

(** A finite float is [(-1)^s * m * 2^e]. *)
Definition float_parts (x : float) : option (bool * Z * Z) :=
  match Prim2SF x with
  | S754_zero s => Some (s, 0, 0)
  | S754_finite s m e => Some (s, Z.pos m, e)
  | S754_infinity _ | S754_nan => None
  end.

Definition signed (s : bool) (n : Z) : Z := if s then - n else n.

(** The integer a float is equal to, if there is one. *)
Definition float_integer (x : float) : option Z :=
  match float_parts x with
  | Some (s, m, e) =>
      if 0 <=? e then Some (signed s (m * 2 ^ e))
      else if m mod 2 ^ (- e) =? 0 then Some (signed s (m / 2 ^ (- e)))
      else None
  | None => None
  end.

(** A finite float cut to an integer, towards zero. *)
Definition float_trunc (x : float) : option Z :=
  match float_parts x with
  | Some (s, m, e) =>
      Some (signed s (if 0 <=? e then m * 2 ^ e else m / 2 ^ (- e)))
  | None => None
  end.

(** The value of a [bool], [int] or [float]. *)
Definition number (v : json) : option (Z + float) :=
  match v with
  | JBool b => Some (inl (Z.b2z b))
  | JInt n => Some (inl n)
  | JFloat x => Some (inr x)
  | _ => None
  end.

Definition int_eq_float (n : Z) (x : float) : bool :=
  match float_integer x with
  | Some m => n =? m
  | None => false
  end.

(** [a == b] for two hashable values: numbers compare by value, whatever
    their types ([True == 1 == 1.0]), texts by their characters. *)
Definition py_eq (a b : json) : bool :=
  match a, b with
  | JNull, JNull => true
  | JStr s, JStr t => String.eqb s t
  | _, _ =>
      match number a, number b with
      | Some (inl m), Some (inl n) => m =? n
      | Some (inr x), Some (inr y) => PrimFloat.eqb x y
      | Some (inl n), Some (inr x) | Some (inr x), Some (inl n) => int_eq_float n x
      | _, _ => false
      end
  end.

(** ** Exceptions and outcomes *)

Inductive exn :=
| TypeError (msg : string)
| IndexError
| AssertionError (unknown : list string)
| ValidationError (model : string)
| UnexpectedResponse (status : Z)
| ServiceError (msg : string).

Inductive Outcome (A : Type) :=
| Ok (a : A)
| Raise (e : exn).
Arguments Ok {A} a.
Arguments Raise {A} e.

(** ** The data of [qdrant_client.models] *)

Inductive Distance := COSINE | EUCLID | DOT | MANHATTAN.

(** [VectorParams(size=_, distance=_)] *)
Record VectorParams := { params_size : Z; params_distance : Distance }.

Record PointStruct := {
  point_id : string;
  point_vector : list float;
  point_payload : gmap string json
}.

(** A search hit; [with_payload] decides whether [sp_payload] is filled. *)
Record ScoredPoint := {
  sp_id : string;
  sp_score : float;
  sp_payload : option (gmap string json)
}.

(** A value passed under a keyword to [client.search]. *)
Inductive arg :=
| ArgStr (s : string)
| ArgVector (v : list float)
| ArgBool (b : bool)
| ArgInt (n : Z).

(** The keyword arguments of a call, in the order of the call site. *)
Definition kwargs : Type := list (string * arg).

(** ** The server and the service log *)

Record Collection := {
  config : VectorParams;
  points : gmap string (list float * gmap string json)
}.

Inductive call :=
| EmbeddingsCreate (model : string) (input : list string)
| CollectionExists (name : string)
| CreateCollection (name : string) (vectors_config : VectorParams)
| Upsert (name : string) (pts : list PointStruct)
| Search (kw : kwargs).

Record World := {
  server : gmap string Collection;
  calls : list call
}.

Definition log (c : call) (w : World) : World :=
  {| server := server w; calls := calls w ++ [c] |}.

Definition with_server (s : gmap string Collection) (w : World) : World :=
  {| server := s; calls := calls w |}.

(** Number of records a collection holds (0 when it does not exist). *)
Definition record_count (s : gmap string Collection) (name : string) : nat :=
  match s !! name with
  | Some c => size (points c)
  | None => 0%nat
  end.

(** The ids a collection holds. *)
Definition record_ids (s : gmap string Collection) (name : string) : gset string :=
  match s !! name with
  | Some c => dom (points c)
  | None => ∅
  end.

(** ** The monad of service calls *)

Definition M (A : Type) : Type := World → Outcome A * World.

#[global] Instance M_ret : MRet M := λ A a w, (Ok a, w).

#[global] Instance M_bind : MBind M := λ A B f m w,
  match m w with
  | (Ok a, w') => f a w'
  | (Raise e, w') => (Raise e, w')
  end.

Definition raise {A} (e : exn) : M A := λ w, (Raise e, w).

(** Result, final world and the calls issued by a run. *)
Definition result {A} (r : Outcome A * World) : Outcome A := r.1.
Definition world {A} (r : Outcome A * World) : World := r.2.

(** [l[i]] *)
Definition py_index {A} (l : list A) (i : nat) : M A :=
  match l !! i with
  | Some x => mret x
  | None => raise IndexError
  end.

(** A comprehension [[body(i) for i in range(n)]] whose body may raise. *)
Definition for_range {A} (n : nat) (body : nat → M A) : M (list A) :=
  mapM body (seq 0 n).

(** Python binds [self] when a method is looked up on an instance.  Looked
    up on the class the method is the plain function, [self] is its first
    positional parameter, and a call that passes keyword arguments only
    raises before the body runs. *)
Definition call_method {S A} (self : option S) (name : string) (body : S → M A) : M A :=
  match self with
  | Some s => body s
  | None => raise (TypeError (name +:+ "() missing 1 required positional argument: 'self'"))
  end.

(** ** What the outside services answer *)

(** A document of [PDFReader().load_data]; [getattr(d, 'text', None)]. *)
Record Document := { doc_text : option string }.

(** One item of [response.data] of the embeddings endpoint. *)
Record Embedding := { embedding : list float }.

(** The answers of the services the repository calls.  The embeddings
    endpoint sees the calls made so far, so it need not give the same answer
    twice; the nearest-neighbour ranking of the server depends on
    floating-point similarity and is left to [search_response].

    The server sees the arguments of a search as the client has bound them.

    What the server validates is the server's as well: [config_refusal] is
    the error for a collection configuration it does not accept (a size that
    is not positive, for one), [points_refusal] the error for a list of
    points it does not accept (an id that is neither an unsigned integer nor
    a UUID, for one), and [stored_vector] is what a collection keeps of a
    vector it is given (a cosine collection keeps the vector normalised, in
    single precision).

    [set_listing] is the order in which the Python process lists the members
    of a set, which follows their hashes: for texts it differs from process
    to process. *)
Record Externals := {
  embeddings_response : list call → string → list string → Outcome (list Embedding);
  search_response : gmap string Collection → kwargs → Outcome (list ScoredPoint);
  config_refusal : VectorParams → option exn;
  points_refusal : list PointStruct → option exn;
  stored_vector : VectorParams → list float → list float;
  set_listing : list json → list json;
  load_data : string → Outcome (list Document);
  split_texts : string → Outcome (list string)
}.

(** ** [hashlib.sha1] and [uuid.uuid5] of the Python standard library *)

Definition encode (s : string) : list Z :=
  map (λ c, Z.of_N (N_of_ascii c)) (list_ascii_of_string s).

Module hashlib.
Definition w32 (x : Z) : Z := x mod 2 ^ 32.

Definition rotl (n x : Z) : Z :=
  w32 (Z.lor (Z.shiftl x n) (Z.shiftr x (32 - n))).

Definition from_bytes_big (bs : list Z) : Z :=
  fold_left (λ acc b, acc * 256 + b) bs 0.

Definition to_bytes_big (n : nat) (x : Z) : list Z :=
  map (λ i : nat, Z.shiftr x (8 * Z.of_nat (n - 1 - i)) mod 256) (seq 0 n).

Definition pad (msg : list Z) : list Z :=
  let l := Z.of_nat (length msg) in
  msg ++ [128] ++ replicate (Z.to_nat ((55 - l) mod 64)) 0 ++ to_bytes_big 8 (8 * l).

Definition blocks (bs : list Z) : list (list Z) :=
  map (λ i : nat, take 64 (drop (64 * i) bs)) (seq 0 (length bs / 64)).

Definition words (block : list Z) : list Z :=
  map (λ i : nat, from_bytes_big (take 4 (drop (4 * i) block))) (seq 0 16).

Definition schedule (block : list Z) : list Z :=
  fold_left
    (λ (w : list Z) (t : nat),
       w ++ [rotl 1 (Z.lxor (Z.lxor (nth (t - 3) w 0) (nth (t - 8) w 0))
                            (Z.lxor (nth (t - 14) w 0) (nth (t - 16) w 0)))])
    (seq 16 64) (words block).

Definition round (st : Z * Z * Z * Z * Z) (tw : nat * Z) : Z * Z * Z * Z * Z :=
  let '(a, b, c, d, e) := st in
  let '(t, w) := tw in
  let '(f, k) :=
    if (t <? 20)%nat then
      (Z.lor (Z.land b c) (Z.land (Z.lxor b 0xFFFFFFFF) d), 0x5A827999)
    else if (t <? 40)%nat then (Z.lxor (Z.lxor b c) d, 0x6ED9EBA1)
    else if (t <? 60)%nat then
      (Z.lor (Z.lor (Z.land b c) (Z.land b d)) (Z.land c d), 0x8F1BBCDC)
    else (Z.lxor (Z.lxor b c) d, 0xCA62C1D6) in
  (w32 (rotl 5 a + f + e + k + w), a, rotl 30 b, c, d).

Definition compress (h : Z * Z * Z * Z * Z) (block : list Z) : Z * Z * Z * Z * Z :=
  let '(h0, h1, h2, h3, h4) := h in
  let '(a, b, c, d, e) := fold_left round (imap (λ t w, (t, w)) (schedule block)) h in
  (w32 (h0 + a), w32 (h1 + b), w32 (h2 + c), w32 (h3 + d), w32 (h4 + e)).

Definition sha1 (msg : list Z) : list Z :=
  let '(h0, h1, h2, h3, h4) :=
    fold_left compress (blocks (pad msg))
      (0x67452301, 0xEFCDAB89, 0x98BADCFE, 0x10325476, 0xC3D2E1F0) in
  to_bytes_big 4 h0 ++ to_bytes_big 4 h1 ++ to_bytes_big 4 h2
    ++ to_bytes_big 4 h3 ++ to_bytes_big 4 h4.
End hashlib.

Module uuid.
(** A UUID is its 128-bit integer. *)
Definition NAMESPACE_URL : Z := 0x6ba7b8119dad11d180b400c04fd430c8.

Definition bytes (u : Z) : list Z := hashlib.to_bytes_big 16 u.

(** [UUID(bytes=bs, version=version)]: the variant and version bits are
    overwritten. *)
Definition UUID (bs : list Z) (version : Z) : Z :=
  let int := hashlib.from_bytes_big bs in
  let int := Z.land int (Z.lnot (Z.shiftl 0xc000 48)) in
  let int := Z.lor int (Z.shiftl 0x8000 48) in
  let int := Z.land int (Z.lnot (Z.shiftl 0xf000 64)) in
  Z.lor int (Z.shiftl version 76).

Definition uuid5 (namespace : Z) (name : string) : Z :=
  UUID (take 16 (hashlib.sha1 (bytes namespace ++ encode name))) 5.

Definition hexdigit (d : Z) : ascii :=
  ascii_of_N (Z.to_N (if d <? 10 then 48 + d else 87 + d)).

Definition hex32 (u : Z) : list ascii :=
  map (λ i : nat, hexdigit (Z.shiftr u (4 * Z.of_nat (31 - i)) mod 16)) (seq 0 32).

(** [str(u)]: 8-4-4-4-12 lower-case hexadecimal digits. *)
Definition str (u : Z) : string :=
  let hex := hex32 u in
  string_of_list_ascii
    (take 8 hex ++ ["-"%char] ++ take 4 (drop 8 hex) ++ ["-"%char]
       ++ take 4 (drop 12 hex) ++ ["-"%char] ++ take 4 (drop 16 hex)
       ++ ["-"%char] ++ drop 20 hex).
End uuid.

(** ** Calls with keyword arguments *)

Definition keywords (kw : kwargs) : list string := map fst kw.

Definition named (names : list string) (k : string) : bool :=
  existsb (String.eqb k) names.

(** The argument given under a keyword. *)
Definition kwarg (kw : kwargs) (name : string) : option arg :=
  snd <$> List.find (λ p, String.eqb name p.1) kw.

Definition quoted (name : string) : string := "'" +:+ name +:+ "'".

Fixpoint and_more (names : list string) : string :=
  match names with
  | [] => ""
  | z :: names =>
      match names with
      | [] => ", and " +:+ quoted z
      | _ :: _ => ", " +:+ quoted z +:+ and_more names
      end
  end.

(** ['a'], ['a' and 'b'], ['a', 'b', and 'c'] *)
Definition name_list (names : list string) : string :=
  match names with
  | [] => ""
  | [a] => quoted a
  | [a; b] => quoted a +:+ " and " +:+ quoted b
  | a :: names => quoted a +:+ and_more names
  end.

Definition missing_message (method : string) (names : list string) : string :=
  method +:+ "() missing " +:+ pretty (length names) +:+ " required positional argument"
    +:+ (if decide (length names = 1%nat) then "" else "s") +:+ ": " +:+ name_list names.

(** ** [qdrant_client.QdrantClient]

    The methods the repository calls, as far as it calls them: a collection
    is created once, [upsert] inserts or overwrites by id and writes nothing
    when the server refuses the points or a vector has not the size of the
    collection, and [search] reads only.  Every request to the server is
    logged. *)
Module QdrantClient.
Record t := { url : string; timeout : Z }.

(** [collection_exists(collection_name)] *)
Definition collection_exists (self : t) (name : string) : M bool := λ w,
  (Ok (bool_decide (is_Some (server w !! name))), log (CollectionExists name) w).

(** [create_collection(collection_name=_, vectors_config=_)] *)
Definition create_collection (ext : Externals) (self : t) (collection_name : string)
    (vectors_config : VectorParams) : M () := λ w,
  let w := log (CreateCollection collection_name vectors_config) w in
  match config_refusal ext vectors_config with
  | Some e => (Raise e, w)
  | None =>
      match server w !! collection_name with
      | Some _ => (Raise (UnexpectedResponse 409), w)
      | None =>
          (Ok (), with_server
                    (<[collection_name := {| config := vectors_config; points := ∅ |}]>
                       (server w)) w)
      end
  end.

(** The record a collection keeps of a point. *)
Definition put (ext : Externals) (cfg : VectorParams)
    (m : gmap string (list float * gmap string json)) (p : PointStruct) :
    gmap string (list float * gmap string json) :=
  <[point_id p := (stored_vector ext cfg (point_vector p), point_payload p)]> m.

(** [upsert(collection_name, points=_)] *)
Definition upsert (ext : Externals) (self : t) (collection_name : string)
    (pts : list PointStruct) : M () := λ w,
  let w := log (Upsert collection_name pts) w in
  match points_refusal ext pts with
  | Some e => (Raise e, w)
  | None =>
      match server w !! collection_name with
      | None => (Raise (UnexpectedResponse 404), w)
      | Some c =>
          if forallb (λ p, Z.of_nat (length (point_vector p)) =? params_size (config c)) pts
          then (Ok (), with_server
                         (<[collection_name :=
                              {| config := config c;
                                 points := fold_left (put ext (config c)) pts (points c) |}]>
                            (server w)) w)
          else (Raise (UnexpectedResponse 400), w)
      end
  end.

(** Python's binding of a call that gives keyword arguments only to a
    method with the parameters [required], without a default, and
    [optional], with one, and with [**kwargs], which the methods of the
    client assert to be empty: a required parameter without a value raises
    [TypeError] before the body runs. *)
Definition bind (method : string) (required optional : list string) (kw : kwargs) : M () :=
  match List.filter (λ p, negb (named (keywords kw) p)) required with
  | [] =>
      match List.filter (λ k, negb (named (required ++ optional) k)) (keywords kw) with
      | [] => mret ()
      | unknown => raise (AssertionError unknown)
      end
  | missing => raise (TypeError (missing_message method missing))
  end.

(** [search(collection_name, query_vector, query_filter=None, ...)]: once
    the arguments are bound the server answers. *)
Definition search (ext : Externals) (self : t) (kw : kwargs) : M (list ScoredPoint) :=
  bind "QdrantClient.search" ["collection_name"; "query_vector"]
    ["query_filter"; "search_params"; "limit"; "offset"; "with_payload"; "with_vectors";
     "score_threshold"; "append_payload"; "consistency"; "shard_key_selector"; "timeout"]
    kw;;
  ((λ w, (search_response ext (server w) kw, log (Search kw) w)) : M (list ScoredPoint)).
End QdrantClient.

(** ** [vector_db.py] *)
Module QdrantStorage.
(** The attributes [__init__] sets; [dim] is not kept. *)
Record t := { client : QdrantClient.t; collection : string }.

(** The dict [{"contexts": _, "sources": _}] that [search] returns (line 57). *)
Record found := { contexts : list json; sources : list json }.

Definition default_url : string := "http://localhost:6333".
Definition default_collection : string := "docs".
Definition default_dim : Z := 3072.

(** Lines 12-23. *)
Definition __init__ (ext : Externals) (url collection : string) (dim : Z) : M t :=
  let self :=
    {| client := {| QdrantClient.url := url; QdrantClient.timeout := 30 |};
       collection := collection |} in
  present ← QdrantClient.collection_exists (client self) (QdrantStorage.collection self);
  if negb present then
    QdrantClient.create_collection ext (client self) (QdrantStorage.collection self)
      {| params_size := dim; params_distance := COSINE |};;
    mret self
  else mret self.

(** Lines 28-32. *)
Definition upsert (ext : Externals) (self : t) (ids : list string)
    (vectors : list (list float)) (payloads : list (gmap string json)) : M () :=
  pts ← for_range (length ids) (λ i,
           id ← py_index ids i;
           vector ← py_index vectors i;
           payload ← py_index payloads i;
           mret {| point_id := id; point_vector := vector; point_payload := payload |});
  QdrantClient.upsert ext (client self) (collection self) pts.

(** [getattr(r, "payload", None) or {}] (line 50) *)
Definition payload_of (r : ScoredPoint) : gmap string json :=
  match sp_payload r with
  | Some p => if bool_decide (p = ∅) then ∅ else p
  | None => ∅
  end.

(** [sources.add(source)] on a set given by its members in the order they
    were added: a list or a dict cannot be hashed; a value equal to a member
    is not added again. *)
Definition set_add (sources : list json) (source : json) : M (list json) :=
  match source with
  | JList _ | JDict _ => raise (TypeError ("unhashable type: " +:+ quoted (type_name source)))
  | _ => mret (if existsb (py_eq source) sources then sources else sources ++ [source])
  end.

(** The loop over [results] (lines 49-55). *)
Fixpoint collect (results : list ScoredPoint) (contexts sources : list json) :
    M (list json * list json) :=
  match results with
  | [] => mret (contexts, sources)
  | r :: results =>
      let payload := payload_of r in
      let text := dict_get payload "text" JNull in
      let source := dict_get payload "source" (JStr "") in
      if json_truthy text then
        sources ← set_add sources source;
        collect results (contexts ++ [text]) sources
      else collect results contexts sources
  end.

(** Lines 36-57.  Line 38 passes the collection under the keyword
    [colelction_name]. *)
Definition search (ext : Externals) (self : t) (query_vector : list float) (top_k : Z) :
    M found :=
  results ← QdrantClient.search ext (client self)
               [ ("colelction_name", ArgStr (collection self));
                 ("query_vector", ArgVector query_vector);
                 ("with_payload", ArgBool true);
                 ("limit", ArgInt top_k) ];
  '(contexts, sources) ← collect results [] [];
  mret {| contexts := contexts; sources := set_listing ext sources |}.
End QdrantStorage.

(** ** [data_loader.py] *)

Definition EMBED_MODEL : string := "text_embedding-3-large".
Definition EMBED_DIM : Z := 3072.

(** An answer of a service that keeps no state of its own here. *)
Definition answer {A} (o : Outcome A) : M A := λ w, (o, w).

(** [client.embeddings.create(model=_, input=_).data] *)
Definition embeddings_create (ext : Externals) (model : string) (input : list string) :
    M (list Embedding) := λ w,
  (embeddings_response ext (calls w) model input, log (EmbeddingsCreate model input) w).

(** Lines 21-29: the texts of the documents that have one, split and
    concatenated in order. *)
Definition load_and_chunk_pdf (ext : Externals) (path : string) : M (list string) :=
  docs ← answer (load_data ext path);
  let texts :=
    omap (λ d, match doc_text d with
               | Some t => if truthy (PyStr t) then Some t else None
               | None => None
               end) docs in
  parts ← mapM (λ t, answer (split_texts ext t)) texts;
  mret (concat parts).

(** Lines 32-38. *)
Definition embed_texts (ext : Externals) (texts : list string) : M (list (list float)) :=
  data ← embeddings_create ext EMBED_MODEL texts;
  mret (map embedding data).

(** ** [custom_types.py] *)

Module RAGChunkAndSrc.
Record t := { chunks : list string; source_id : string }.
End RAGChunkAndSrc.

Module RAGUpsertResult.
Record t := { ingested : Z }.

Definition model_dump (r : t) : gmap string Z := {[ "ingested" := ingested r ]}.
End RAGUpsertResult.

Module RAGSearchResult.
Record t := { contexts : list string; sources : list string }.

Definition as_str (v : json) : option string :=
  match v with
  | JStr s => Some s
  | _ => None
  end.

(** The constructor validates both fields as [list[str]]: a member that is
    not a [str] is not converted. *)
Definition new (contexts sources : list json) : M t :=
  match mapM as_str contexts, mapM as_str sources with
  | Some c, Some s => mret {| contexts := c; sources := s |}
  | _, _ => raise (ValidationError "RAGSearchResult")
  end.
End RAGSearchResult.

(** ** [main.py] *)

(** [ctx.event.data] of a ["rag/ingest_pdf"] event: ["pdf_path"] and the
    optional ["source_id"]. *)
Record IngestEvent := { pdf_path : string; event_source_id : option string }.

(** The id of chunk [i] of a source (line 79):
    [str(uuid.uuid5(uuid.NAMESPACE_URL, f"{source_id}:{i}"))]. *)
Definition id_name (source_id : string) (i : nat) : string :=
  source_id +:+ ":" +:+ pretty i.

Definition derive_id (source_id : string) (i : nat) : string :=
  uuid.str (uuid.uuid5 uuid.NAMESPACE_URL (id_name source_id i)).

(** Lines 67-73. *)
Definition _load (ext : Externals) (event : IngestEvent) : M RAGChunkAndSrc.t :=
  let pdf_path := pdf_path event in
  let source_id := default pdf_path (event_source_id event) in
  chunks ← load_and_chunk_pdf ext pdf_path;
  mret {| RAGChunkAndSrc.chunks := chunks; RAGChunkAndSrc.source_id := source_id |}.

(** The [ids] and [payloads] comprehensions of [_upsert] (lines 79-80). *)
Definition upsert_ids (source_id : string) (chunks : list string) : list string :=
  map (λ i, derive_id source_id i) (seq 0 (length chunks)).

Definition upsert_payloads (source_id : string) (chunks : list string) :
    M (list (gmap string json)) :=
  for_range (length chunks) (λ i,
    chunk ← py_index chunks i;
    mret ({[ "source" := JStr source_id; "text" := JStr chunk ]} : gmap string json)).

(** Lines 75-84.  Line 81 calls [QdrantStorage.upsert] on the class, with
    keyword arguments only: no instance is bound to [self]. *)
Definition _upsert (ext : Externals) (chunks_and_src : RAGChunkAndSrc.t) :
    M RAGUpsertResult.t :=
  let chunks := RAGChunkAndSrc.chunks chunks_and_src in
  let source_id := RAGChunkAndSrc.source_id chunks_and_src in
  vecs ← embed_texts ext chunks;
  let ids := upsert_ids source_id chunks in
  payloads ← upsert_payloads source_id chunks;
  call_method (None : option QdrantStorage.t) "QdrantStorage.upsert"
    (λ self, QdrantStorage.upsert ext self ids vecs payloads);;
  mret {| RAGUpsertResult.ingested := Z.of_nat (length chunks) |}.

(** Lines 63-91.  [ctx.step.run(name, f, output_type=_)] runs [f];
    scheduling and retries belong to the workflow engine. *)
Definition rag_ingest_pdf (ext : Externals) (event : IngestEvent) : M (gmap string Z) :=
  chunks_and_src ← _load ext event;
  ingested ← _upsert ext chunks_and_src;
  mret (RAGUpsertResult.model_dump ingested).

(** Lines 98-103.  [QdrantStorage()] takes the three defaults. *)
Definition _search (ext : Externals) (question : string) (top_k : Z) :
    M RAGSearchResult.t :=
  vecs ← embed_texts ext [question];
  query_vec ← py_index vecs 0;
  store ← QdrantStorage.__init__ ext QdrantStorage.default_url
             QdrantStorage.default_collection QdrantStorage.default_dim;
  found ← call_method (Some store) "QdrantStorage.search"
             (λ self, QdrantStorage.search ext self query_vec top_k);
  RAGSearchResult.new (QdrantStorage.contexts found) (QdrantStorage.sources found).

(** ** Calls in the log *)

Definition is_embed (c : call) : bool :=
  match c with EmbeddingsCreate _ _ => true | _ => false end.

Definition is_upsert (c : call) : bool :=
  match c with Upsert _ _ => true | _ => false end.

Definition is_search (c : call) : bool :=
  match c with Search _ => true | _ => false end.

(** ** Auxiliary notions for the statements below *)

(** Lifting of a lookup that can only fail with [IndexError]. *)
Definition indexed {A} (o : option A) : M A :=
  match o with
  | Some x => mret x
  | None => raise IndexError
  end.

(** What the unbound call in [_upsert] raises. *)
Definition unbound_self : exn :=
  TypeError "QdrantStorage.upsert() missing 1 required positional argument: 'self'".

(** What the call of [client.search] in [QdrantStorage.search] raises. *)
Definition missing_collection_name : exn :=
  TypeError "QdrantClient.search() missing 1 required positional argument: 'collection_name'".

(** The point [QdrantStorage.upsert] builds at position [i]. *)
Definition point_at (ids : list string) (vectors : list (list float))
    (payloads : list (gmap string json)) (i : nat) : option PointStruct :=
  id ← ids !! i; vector ← vectors !! i; payload ← payloads !! i;
  Some {| point_id := id; point_vector := vector; point_payload := payload |}.

(** The record the last point with id [k] leaves behind. *)
Fixpoint final (ext : Externals) (cfg : VectorParams) (pts : list PointStruct) (k : string) :
    option (list float * gmap string json) :=
  match pts with
  | [] => None
  | p :: pts =>
      match final ext cfg pts k with
      | Some x => Some x
      | None =>
          if decide (point_id p = k)
          then Some (stored_vector ext cfg (point_vector p), point_payload p)
          else None
      end
  end.

(** Hexadecimal digit [i] (from the left) of a 128-bit integer. *)
Definition nibble (u : Z) (i : nat) : Z := Z.shiftr u (4 * Z.of_nat (31 - i)) mod 16.

(** The handle [__init__] returns and the collection it creates. *)
Definition handle (url collection : string) : QdrantStorage.t :=
  {| QdrantStorage.client := {| QdrantClient.url := url; QdrantClient.timeout := 30 |};
     QdrantStorage.collection := collection |}.

Definition fresh (dim : Z) : Collection :=
  {| config := {| params_size := dim; params_distance := COSINE |}; points := ∅ |}.

(** ** An in-memory stand-in for the services

    Two-dimensional embeddings, one chunk per page, and a server that
    accepts a positive size and points whose ids have the 8-4-4-4-12 form
    of a UUID, normalises the vectors of a cosine collection and answers a
    search with the first [limit] points of the collection in the order of
    its id map.
    Every PDF but ["empty.pdf"] has the pages ["alpha"], one without text,
    and ["beta"]. *)
Module Fake.
Definition hit (kv : string * (list float * gmap string json)) : ScoredPoint :=
  {| sp_id := kv.1; sp_score := 1%float; sp_payload := Some kv.2.2 |}.

Definition is_hex (c : ascii) : bool :=
  let n := N_of_ascii c in
  ((48 <=? n) && (n <=? 57) || (65 <=? n) && (n <=? 70) || (97 <=? n) && (n <=? 102))%N.

Definition is_uuid (id : string) : bool :=
  let l := list_ascii_of_string id in
  (length l =? 36)%nat
  && forallb (λ ic : nat * ascii,
                if bool_decide (ic.1 ∈ [8; 13; 18; 23]%nat) then Ascii.eqb ic.2 "-"
                else is_hex ic.2)
       (imap pair l).

(** [v / |v|], in double precision; exact on the axis vectors used below. *)
Definition normalise (v : list float) : list float :=
  let norm := PrimFloat.sqrt (fold_left (λ acc x, acc + x * x)%float v 0%float) in
  if PrimFloat.eqb norm 0 then v else map (λ x, x / norm)%float v.

Definition ext : Externals :=
  {| embeddings_response := λ _ _ input,
       Ok (map (λ _, {| embedding := [1%float; 0%float] |}) input);
     search_response := λ s kw,
       match kwarg kw "collection_name", default (ArgInt 10) (kwarg kw "limit") with
       | Some (ArgStr name), ArgInt limit =>
           match s !! name with
           | Some c => Ok (take (Z.to_nat limit) (map hit (map_to_list (points c))))
           | None => Raise (UnexpectedResponse 404)
           end
       | _, _ => Raise (UnexpectedResponse 422)
       end;
     config_refusal := λ cfg,
       if 0 <? params_size cfg then None else Some (UnexpectedResponse 422);
     points_refusal := λ pts,
       if forallb (λ p, is_uuid (point_id p)) pts then None
       else Some (UnexpectedResponse 400);
     stored_vector := λ cfg v,
       match params_distance cfg with COSINE => normalise v | _ => v end;
     set_listing := λ members, members;
     load_data := λ path,
       if String.eqb path "empty.pdf" then Ok []
       else Ok [ {| doc_text := Some "alpha" |}; {| doc_text := None |};
                 {| doc_text := Some "beta" |} ];
     split_texts := λ t, Ok [t] |}.

Definition empty_world : World := {| server := ∅; calls := [] |}.

Definition record (source text : string) : list float * gmap string json :=
  ([0%float; 1%float], {[ "source" := JStr source; "text" := JStr text ]}).

Definition id1 : string := "00000000-0000-0000-0000-000000000001".
Definition id2 : string := "00000000-0000-0000-0000-000000000002".
Definition id3 : string := "00000000-0000-0000-0000-000000000003".

(** A ["docs"] collection of dimension 2 holding three records, one of
    them with an empty text. *)
Definition docs : Collection :=
  {| config := {| params_size := 2; params_distance := COSINE |};
     points := {[ id1 := record "a.pdf" "alpha";
                  id2 := record "b.pdf" "beta";
                  id3 := record "a.pdf" "" ]} |}.

Definition world : World := {| server := {[ "docs" := docs ]}; calls := [] |}.

Definition storage : QdrantStorage.t :=
  {| QdrantStorage.client :=
       {| QdrantClient.url := QdrantStorage.default_url; QdrantClient.timeout := 30 |};
     QdrantStorage.collection := "docs" |}.

Definition query : list float := [1%float; 0%float].

(** An upload, and for a two-chunk document of source ["doc1"] two answers
    of the embedder and the payloads. *)
Definition event : IngestEvent :=
  {| pdf_path := "uploads/doc1.pdf"; event_source_id := Some "doc1" |}.

Definition vecs1 : list (list float) := [[1%float; 0%float]; [1%float; 0%float]].
Definition vecs2 : list (list float) := [[0%float; 1%float]; [0%float; 1%float]].

Definition payloads : list (gmap string json) :=
  [ {[ "source" := JStr "doc1"; "text" := JStr "alpha" ]};
    {[ "source" := JStr "doc1"; "text" := JStr "beta" ]} ].

(** An upload whose PDF yields no text. *)
Definition empty_event : IngestEvent :=
  {| pdf_path := "empty.pdf"; event_source_id := None |}.



(** The server that holds [c] as its ["docs"]. *)
Definition holding (c : Collection) : World :=
  {| server := {[ "docs" := c ]}; calls := [] |}.

(** What the server has for a search of ["docs"] with [limit = k]. *)
Definition nearest (w : World) (k : Z) : list ScoredPoint :=
  match search_response ext (server w)
          [ ("collection_name", ArgStr "docs"); ("query_vector", ArgVector query);
            ("with_payload", ArgBool true); ("limit", ArgInt k) ] with
  | Ok rs => rs
  | Raise _ => []
  end.
End Fake.

(** ** Auxiliary notions for the further properties *)

Definition digits : list ascii := ["0"; "1"; "2"; "3"; "4"; "5"; "6"; "7"; "8"; "9"]%char.
Definition hex_digits : list ascii := digits ++ ["a"; "b"; "c"; "d"; "e"; "f"]%char.

(** A version-5 UUID in its canonical text form: 8-4-4-4-12 lower-case
    hexadecimal digits, the third group starting with the version [5] and
    the fourth with a variant digit [8], [9], [a] or [b]. *)
Definition uuid5_text (s : string) : Prop :=
  ∃ (a b c d e : list ascii) (v : ascii),
    list_ascii_of_string s
    = a ++ "-"%char :: b ++ "-"%char :: "5"%char :: c ++ "-"%char :: v :: d ++ "-"%char :: e
    ∧ length a = 8%nat ∧ length b = 4%nat ∧ length c = 3%nat ∧ length d = 3%nat
    ∧ length e = 12%nat
    ∧ v ∈ ["8"; "9"; "a"; "b"]%char
    ∧ Forall (λ x, x ∈ hex_digits) (a ++ b ++ c ++ d ++ e).

(** The texts [load_and_chunk_pdf] keeps: those of the documents that have a
    non-empty one, in document order. *)
Definition textful (docs : list Document) : list string :=
  omap (λ d, match doc_text d with
             | Some t => if truthy (PyStr t) then Some t else None
             | None => None
             end) docs.

(** Left-to-right evaluation of a list of answers: the first failure wins. *)
Fixpoint traverse {A B} (g : A → Outcome B) (l : list A) : Outcome (list B) :=
  match l with
  | [] => Ok []
  | x :: l =>
      match g x with
      | Ok y => match traverse g l with Ok ys => Ok (y :: ys) | Raise e => Raise e end
      | Raise e => Raise e
      end
  end.

(** The world in which [_search] constructs its handle: the embedder has
    been called. *)
Definition embedded (question : string) (w : World) : World :=
  log (EmbeddingsCreate EMBED_MODEL [question]) w.

(** The world in which [_search] calls [store.search]. *)
Definition query_world (ext : Externals) (question : string) (w : World) : World :=
  world (QdrantStorage.__init__ ext QdrantStorage.default_url
           QdrantStorage.default_collection QdrantStorage.default_dim
           (embedded question w)).

(** ** Exceptions and state of the callers

    The callers of the two pipelines raise more exceptions and keep more
    state than [M] has; [St S] is [M] over a state [S]. *)

Inductive error :=
| Py (e : exn)
| KeyError (key : json)
| ValueError
| OverflowError
| AttributeError (msg : string)
| RuntimeError (msg : string)
| TimeoutError (msg : string).

Inductive Result (A : Type) :=
| Done (a : A)
| Failed (e : error).
Arguments Done {A} a.
Arguments Failed {A} e.

(** [M] over any other state. *)
Definition St (S A : Type) : Type := S → Result A * S.

#[global] Instance St_ret S : MRet (St S) := λ A a s, (Done a, s).

#[global] Instance St_bind S : MBind (St S) := λ A B f m s,
  match m s with
  | (Done a, s') => f a s'
  | (Failed e, s') => (Failed e, s')
  end.

Definition throw {S A} (e : error) : St S A := λ s, (Failed e, s).

(** ** [rag_query_pdf_ai] of [main.py]

    The language model behind [ctx.step.ai.infer] is one more outside
    service.  Its requests are logged next to the [World] in a [Session];
    [Q] is [M] over sessions, with the one more exception the function can
    raise. *)

(** [str.strip()] on the UTF-8 bytes of a text: the encodings of the 29
    characters for which [str.isspace] holds. *)
Definition whitespace : list (list N) :=
  [ [9]; [10]; [11]; [12]; [13]; [28]; [29]; [30]; [31]; [32];
    [194; 133]; [194; 160]; [225; 154; 128];
    [226; 128; 128]; [226; 128; 129]; [226; 128; 130]; [226; 128; 131];
    [226; 128; 132]; [226; 128; 133]; [226; 128; 134]; [226; 128; 135];
    [226; 128; 136]; [226; 128; 137]; [226; 128; 138];
    [226; 128; 168]; [226; 128; 169]; [226; 128; 175];
    [226; 129; 159]; [227; 128; 128] ]%N.

(** The rest of [l] after one leading character of the table, if any. *)
Definition drop_head (table : list (list N)) (l : list ascii) : option (list ascii) :=
  head (omap (λ ws, if bool_decide (take (length ws) (map N_of_ascii l) = ws)
                    then Some (drop (length ws) l) else None) table).

Fixpoint strip_go (table : list (list N)) (fuel : nat) (l : list ascii) : list ascii :=
  match fuel with
  | O => l
  | S fuel =>
      match drop_head table l with
      | Some rest => strip_go table fuel rest
      | None => l
      end
  end.

Definition lstrip (l : list ascii) : list ascii := strip_go whitespace (length l) l.

Definition rstrip (l : list ascii) : list ascii :=
  rev (strip_go (map (@rev N) whitespace) (length l) (rev l)).

Definition strip (s : string) : string :=
  string_of_list_ascii (rstrip (lstrip (list_ascii_of_string s))).

(** ["\n"] *)
Definition NL : string := String (ascii_of_nat 10) EmptyString.

(** [sep.join(parts)] *)
Fixpoint join (sep : string) (parts : list string) : string :=
  match parts with
  | [] => ""
  | p :: ps =>
      match ps with
      | [] => p
      | _ :: _ => p +:+ sep +:+ join sep ps
      end
  end.

(** The state is not touched. *)
Definition pure {S A} (r : Result A) : St S A := λ s, (r, s).

(** *** [int(v)]

    [int] of a text reads its characters as [str.isspace] and the decimal
    digits of Unicode 14 (Python 3.11) have them: spaces around an optional
    sign and digits, single underscores between digits, at most 4300
    digits. *)

(** The code points of a text. *)
Fixpoint code_points (bytes : list N) : list N :=
  match bytes with
  | [] => []
  | b :: bytes =>
      (if b <? 128 then b :: code_points bytes
       else if b <? 192 then code_points bytes
       else
         let n := if b <? 224 then 1%nat else if b <? 240 then 2%nat else 3%nat in
         fold_left (λ cp c, cp * 64 + c mod 64) (take n bytes) (b mod 2 ^ (6 - N.of_nat n))
           :: code_points bytes)%N
  end.

(** The characters for which [str.isspace] holds. *)
Definition space_points : list N :=
  [ 9; 10; 11; 12; 13; 28; 29; 30; 31; 32; 133; 160; 5760; 8192; 8193;
    8194; 8195; 8196; 8197; 8198; 8199; 8200; 8201; 8202; 8232; 8233;
    8239; 8287; 12288 ]%N.

(** The digit zero of every script with decimal digits; its nine successors
    are the digits one to nine. *)
Definition zero_points : list N :=
  [ 48; 1632; 1776; 1984; 2406; 2534; 2662; 2790; 2918; 3046; 3174; 3302;
    3430; 3558; 3664; 3792; 3872; 4160; 4240; 6112; 6160; 6470; 6608;
    6784; 6800; 6992; 7088; 7232; 7248; 42528; 43216; 43264; 43472;
    43504; 43600; 44016; 65296; 66720; 68912; 69734; 69872; 69942; 70096;
    70384; 70736; 70864; 71248; 71360; 71472; 71904; 72016; 72784; 73040;
    73120; 92768; 92864; 93008; 120782; 120792; 120802; 120812; 120822;
    123200; 123632; 125264; 130032 ]%N.

Definition decimal (cp : N) : option N :=
  head (omap (λ z, if (z <=? cp) && (cp <? z + 10) then Some (cp - z) else None)%N
          zero_points).

(** The ASCII character [int] reads for a character. *)
Definition read_as (cp : N) : N :=
  (if cp <? 127 then cp
   else if existsb (N.eqb cp) space_points then 32
   else match decimal cp with
        | Some d => 48 + d
        | None => 63
        end)%N.

Definition is_blank (c : N) : bool := ((c =? 32) || (9 <=? c) && (c <=? 13))%N.
Definition is_digit (c : N) : bool := ((48 <=? c) && (c <=? 57))%N.
Definition is_underscore (c : N) : bool := (c =? 95)%N.

Fixpoint drop_while (p : N → bool) (l : list N) : list N :=
  match l with
  | [] => []
  | c :: rest => if p c then drop_while p rest else l
  end.

Fixpoint leading (p : N → bool) (l : list N) : list N :=
  match l with
  | [] => []
  | c :: rest => if p c then c :: leading p rest else []
  end.

(** No underscore at either end and no two in a row. *)
Fixpoint separated (previous : bool) (l : list N) : bool :=
  match l with
  | [] => negb previous
  | c :: rest =>
      if is_underscore c then negb previous && separated true rest
      else separated false rest
  end.

Definition max_str_digits : nat := 4300.

(** [int(s)], [None] for [ValueError]. *)
Definition int_of_text (s : string) : option Z :=
  let buffer := map read_as (code_points (map N_of_ascii (list_ascii_of_string s))) in
  let l := drop_while is_blank buffer in
  let '(negative, l) :=
    match l with
    | 43%N :: rest => (false, rest)
    | 45%N :: rest => (true, rest)
    | _ => (false, l)
    end in
  let body := leading (λ c, is_digit c || is_underscore c) l in
  let numerals := List.filter is_digit body in
  match body, drop_while is_blank (drop (length body) l) with
  | _ :: _, [] =>
      if separated true body && (length numerals <=? max_str_digits)%nat
      then Some (signed negative
                   (fold_left (λ acc c, 10 * acc + (Z.of_N c - 48)) numerals 0))
      else None
  | _, _ => None
  end.

(** [int(v)] *)
Definition py_int (v : json) : Result Z :=
  match v with
  | JBool b => Done (Z.b2z b)
  | JInt n => Done n
  | JFloat x =>
      match float_trunc x with
      | Some n => Done n
      | None => Failed (if PrimFloat.eqb x x then OverflowError else ValueError)
      end
  | JStr s =>
      match int_of_text s with
      | Some n => Done n
      | None => Failed ValueError
      end
  | JNull | JList _ | JDict _ =>
      Failed (Py (TypeError ("int() argument must be a string, a bytes-like object or "
                             +:+ "a real number, not " +:+ quoted (type_name v))))
  end.

(** *** Subscripts and methods of a parsed answer *)

Definition not_subscriptable {A} (v : json) : Result A :=
  Failed (Py (TypeError (quoted (type_name v) +:+ " object is not subscriptable"))).

(** [v[key]] for a text [key] *)
Definition item (v : json) (key : string) : Result json :=
  match v with
  | JDict items =>
      match items !! key with
      | Some x => Done x
      | None => Failed (KeyError (JStr key))
      end
  | JList _ => Failed (Py (TypeError "list indices must be integers or slices, not str"))
  | JStr _ => Failed (Py (TypeError "string indices must be integers, not 'str'"))
  | _ => not_subscriptable v
  end.

(** The first character of a text, with the bytes that continue it. *)
Definition first_character (s : string) : option string :=
  match list_ascii_of_string s with
  | [] => None
  | c :: rest =>
      Some (string_of_list_ascii
              (c :: map ascii_of_N
                      (leading (λ b, (128 <=? b) && (b <? 192))%N (map N_of_ascii rest))))
  end.

(** [v[0]] *)
Definition item_0 (v : json) : Result json :=
  match v with
  | JList items =>
      match items with
      | x :: _ => Done x
      | [] => Failed (Py IndexError)
      end
  | JStr s =>
      match first_character s with
      | Some c => Done (JStr c)
      | None => Failed (Py IndexError)
      end
  | JDict _ => Failed (KeyError (JInt 0))
  | _ => not_subscriptable v
  end.

(** ** [rag_query_pdf_ai] of [main.py] (continued) *)

(** [ctx.event.data] of a ["rag/query_pdf_ai"] event: the ["question"], a
    text as [_search] declares it, and whatever JSON value the sender put
    under ["top_k"]. *)
Record QueryEvent := { event_question : option string; event_top_k : option json }.

Record Message := { role : string; content : string }.

(** The call [ctx.step.ai.infer(step_id, adapter=Adapter(auth_key, model), body)]. *)
Record InferRequest := {
  step_id : string;
  auth_key : option string;
  model : string;
  max_tokens : Z;
  temperature : float;
  messages : list Message
}.

(** The environment and the language model, which answers with a JSON
    document. *)
Record Assistant := {
  getenv : string → option string;
  infer_response : list InferRequest → InferRequest → Outcome json
}.

Record Session := { session_world : World; inferences : list InferRequest }.

Definition Q (A : Type) : Type := St Session A.

(** A step of the pipelines of [M], run inside a session. *)
Definition lift {A} (m : M A) : Q A := λ s,
  match m (session_world s) with
  | (Ok a, w) => (Done a, {| session_world := w; inferences := inferences s |})
  | (Raise e, w) => (Failed (Py e), {| session_world := w; inferences := inferences s |})
  end.

Definition infer (a : Assistant) (req : InferRequest) : Q json := λ s,
  (match infer_response a (inferences s) req with
   | Ok res => Done res
   | Raise e => Failed (Py e)
   end,
   {| session_world := session_world s; inferences := inferences s ++ [req] |}).

(** [RAGQueryResult] of [custom_types.py] (lines 20-23); the dict
    [rag_query_pdf_ai] returns has its three keys. *)
Module RAGQueryResult.
Record t := { answer : string; sources : list string; num_contexts : Z }.
End RAGQueryResult.

Definition context_block (contexts : list string) : string :=
  join (NL +:+ NL) (map (λ c, "- " +:+ c) contexts).

Definition user_content (contexts : list string) (question : string) : string :=
  "Use the following context to answer the question." +:+ NL +:+ NL
  +:+ "Context:" +:+ NL +:+ context_block contexts +:+ NL +:+ NL
  +:+ "Question: " +:+ question +:+ NL +:+ NL
  +:+ "Answer concisely using the context above.".

Definition llm_request (a : Assistant) (contexts : list string) (question : string) :
    InferRequest :=
  {| step_id := "llm-answer";
     auth_key := getenv a "OPENAI_API_KEY";
     model := "gpt-4o-mini";
     max_tokens := 1024;
     temperature := 0x1.999999999999ap-3%float;
     messages :=
       [ {| role := "system";
            content := "You answer questions using only the provided context." |};
         {| role := "user"; content := user_content contexts question |} ] |}.

(** [content.strip()] *)
Definition strip_of (content : json) : Result string :=
  match content with
  | JStr s => Done (strip s)
  | _ => Failed (AttributeError
                   (quoted (type_name content) +:+ " object has no attribute 'strip'"))
  end.

(** Sequencing of results. *)
Definition and_then {A B} (r : Result A) (f : A → Result B) : Result B :=
  match r with
  | Done a => f a
  | Failed e => Failed e
  end.

(** Line 139: [res["choices"][0]["message"]["content"].strip()] *)
Definition answer_of (res : json) : Result string :=
  and_then (item res "choices") (λ choices,
  and_then (item_0 choices) (λ choice,
  and_then (item choice "message") (λ message,
  and_then (item message "content") strip_of))).

(** Lines 97-141. *)
Definition rag_query_pdf_ai (ext : Externals) (a : Assistant) (event : QueryEvent) :
    Q RAGQueryResult.t :=
  question ← match event_question event with
              | Some q => mret q
              | None => throw (KeyError (JStr "question"))
              end;
  top_k ← pure (py_int (default (JInt 5) (event_top_k event)));
  found ← lift (_search ext question top_k);
  res ← infer a (llm_request a (RAGSearchResult.contexts found) question);
  answer ← pure (answer_of res);
  mret {| RAGQueryResult.answer := answer;
          RAGQueryResult.sources := RAGSearchResult.sources found;
          RAGQueryResult.num_contexts :=
            Z.of_nat (length (RAGSearchResult.contexts found)) |}.

(** The text of a list of UTF-8 bytes. *)
Definition decode (l : list Z) : string :=
  string_of_list_ascii (map (λ b, ascii_of_N (Z.to_N b)) l).

(** [x in s] for strings. *)
Definition substring (x s : string) : Prop := ∃ pre post, s = pre +:+ x +:+ post.

(** ** [streamlit_app.py]: waiting for the output of a run

    The front end polls the workflow engine over HTTP.  What the engine
    answers and what the clock shows are parameters; the requests sent, the
    number of clock readings and the pauses are logged in a [Browser]. *)

(** A run as the engine reports it: [run.get("status")], [run.get("output")]. *)
Record Run := { run_status : pyval; run_output : option (gmap string json) }.

Record Dashboard := {
  environ : string → option string;
  http_get : list string → string → Outcome (option (list Run));
  clock : nat → float
}.

Record Browser := { requests : list string; clock_reads : nat; sleeps : list float }.

(** Lines 77-79. *)
Definition _inngest_api_base (d : Dashboard) : string :=
  default "http://127.0.0.1:8288/v1" (environ d "INNGEST_API_BASE").

Definition runs_url (d : Dashboard) (event_id : string) : string :=
  _inngest_api_base d +:+ "/events/" +:+ event_id +:+ "/runs".

(** Lines 82-87: the answer of the engine is the ["data"] member of the
    JSON body, if it has one; a failed request or status raises. *)
Definition fetch_runs (d : Dashboard) (event_id : string) : St Browser (list Run) := λ b,
  let url := runs_url d event_id in
  (match http_get d (requests b) url with
   | Ok data => Done (default [] data)
   | Raise e => Failed (Py e)
   end,
   {| requests := requests b ++ [url]; clock_reads := clock_reads b; sleeps := sleeps b |}).

(** [time.time()] and [time.sleep(_)] *)
Definition time_time (d : Dashboard) : St Browser float := λ b,
  (Done (clock d (clock_reads b)),
   {| requests := requests b; clock_reads := S (clock_reads b); sleeps := sleeps b |}).

Definition time_sleep (seconds : float) : St Browser () := λ b,
  (Done (), {| requests := requests b; clock_reads := clock_reads b;
               sleeps := sleeps b ++ [seconds] |}).

(** [f"{v}"] *)
Definition py_str (v : pyval) : string :=
  match v with
  | PyNone => "None"
  | PyStr s => s
  end.

Definition succeeded (status : pyval) : bool :=
  bool_decide (status ∈ [PyStr "Completed"; PyStr "Succeeded"; PyStr "Success";
                         PyStr "Finished"]).

Definition failed (status : pyval) : bool :=
  bool_decide (status ∈ [PyStr "Failed"; PyStr "Cancelled"]).

(** [run.get("output") or {}] *)
Definition output_of (run : Run) : gmap string json :=
  match run_output run with
  | Some out => if bool_decide (out = ∅) then ∅ else out
  | None => ∅
  end.

(** Lines 93-105: [fuel] turns of the [while True] loop; [None] when the
    loop is still running after them. *)
Fixpoint poll (d : Dashboard) (fuel : nat) (event_id : string)
    (timeout_s poll_interval_s start : float) (last_status : pyval) :
    St Browser (option (gmap string json)) :=
  match fuel with
  | O => mret None
  | S fuel =>
      runs ← fetch_runs d event_id;
      let continue last_status :=
        now ← time_time d;
        if ltb timeout_s (sub now start) then
          throw (TimeoutError ("Timed out waiting for run output (last status: "
                              +:+ py_str last_status +:+ ")"))
        else
          time_sleep poll_interval_s;;
          poll d fuel event_id timeout_s poll_interval_s start last_status in
      match runs with
      | run :: _ =>
          let status := run_status run in
          let last_status := if truthy status then status else last_status in
          if succeeded status then mret (Some (output_of run))
          else if failed status then throw (RuntimeError ("Function run " +:+ py_str status))
          else continue last_status
      | [] => continue last_status
      end
  end.

(** Lines 90-105. *)
Definition wait_for_run_output (d : Dashboard) (fuel : nat) (event_id : string)
    (timeout_s poll_interval_s : float) : St Browser (option (gmap string json)) :=
  start ← time_time d;
  poll d fuel event_id timeout_s poll_interval_s start PyNone.

Definition default_timeout_s : float := 120%float.
Definition default_poll_interval_s : float := 0.5%float.

(** The browser after [i] turns of the loop that went on to the next. *)
Definition turns (d : Dashboard) (event_id : string) (poll_interval_s : float) (i : nat)
    (b : Browser) : Browser :=
  {| requests := requests b ++ replicate i (runs_url d event_id);
     clock_reads := clock_reads b + i;
     sleeps := sleeps b ++ replicate i poll_interval_s |}.

(** The deadline has passed at the clock reading of browser [b]. *)
Definition overdue (d : Dashboard) (timeout_s start : float) (b : Browser) : bool :=
  ltb timeout_s (sub (clock d (clock_reads b)) start).

(** A turn that goes on: the request succeeds, the first run (if any) has
    no final status, and the deadline has not passed. *)
Definition goes_on (d : Dashboard) (event_id : string) (timeout_s start : float)
    (b : Browser) : Prop :=
  ∃ data, http_get d (requests b) (runs_url d event_id) = Ok data
          ∧ match default [] data with
            | run :: _ => succeeded (run_status run) = false ∧ failed (run_status run) = false
            | [] => True
            end
          ∧ overdue d timeout_s start b = false.

(** The browser in which the loop starts: the clock has been read once. *)
Definition started (b : Browser) : Browser :=
  {| requests := requests b; clock_reads := S (clock_reads b); sleeps := sleeps b |}.

(** ** Stand-ins for the further properties

    Services that also fail: the reader has no ["missing.pdf"], the splitter
    rejects the text ["bad"] and cuts every other text in two, the embedder
    has no vector for the question ["silent"]; a language model that offers
    two choices; a workflow engine that reports a running run twice and
    then a finished one, under a clock that advances half a second per
    reading. *)
Module Stub.
Definition ext : Externals :=
  {| embeddings_response := λ _ _ input,
       if bool_decide (input = ["silent"]) then Ok []
       else Ok (map (λ _, {| embedding := [1%float; 0%float] |}) input);
     search_response := search_response Fake.ext;
     config_refusal := config_refusal Fake.ext;
     points_refusal := points_refusal Fake.ext;
     stored_vector := stored_vector Fake.ext;
     set_listing := set_listing Fake.ext;
     load_data := λ path,
       if String.eqb path "missing.pdf" then Raise (ServiceError "no such file")
       else if String.eqb path "bad.pdf" then
         Ok [ {| doc_text := Some "alpha" |}; {| doc_text := Some "bad" |};
              {| doc_text := Some "beta" |} ]
       else Ok [ {| doc_text := Some "alpha" |}; {| doc_text := Some "" |};
                 {| doc_text := None |}; {| doc_text := Some "beta" |} ];
     split_texts := λ t,
       if String.eqb t "bad" then Raise (ServiceError "cannot split")
       else Ok [t +:+ " (1)"; t +:+ " (2)"] |}.

(** A server that takes no collection of more than 1024 dimensions. *)
Definition small : Externals :=
  {| embeddings_response := embeddings_response Fake.ext;
     search_response := search_response Fake.ext;
     config_refusal := λ cfg,
       if (0 <? params_size cfg) && (params_size cfg <=? 1024) then None
       else Some (UnexpectedResponse 422);
     points_refusal := points_refusal Fake.ext;
     stored_vector := stored_vector Fake.ext;
     set_listing := set_listing Fake.ext;
     load_data := load_data Fake.ext;
     split_texts := split_texts Fake.ext |}.

Definition docs : list Document :=
  [ {| doc_text := Some "alpha" |}; {| doc_text := Some "" |};
    {| doc_text := None |}; {| doc_text := Some "beta" |} ].

Definition event (path : string) : IngestEvent :=
  {| pdf_path := path; event_source_id := None |}.

Definition vector : list float := [1%float; 0%float].

Definition completion : json :=
  JDict {[ "choices" :=
             JList [ JDict {[ "message" := JDict {[ "content" := JStr "  The answer. " ]} ]};
                     JDict {[ "message" := JDict {[ "content" := JStr "Another." ]} ]} ] ]}.

Definition assistant : Assistant :=
  {| getenv := λ name, if String.eqb name "OPENAI_API_KEY" then Some "sk-test" else None;
     infer_response := λ _ _, Ok completion |}.

Definition session (w : World) : Session := {| session_world := w; inferences := [] |}.

Definition query (question : string) : QueryEvent :=
  {| event_question := Some question; event_top_k := None |}.

Definition running : Run := {| run_status := PyStr "Running"; run_output := None |}.

Definition finished : Run :=
  {| run_status := PyStr "Completed";
     run_output := Some {[ "answer" := JStr "The answer."; "num_contexts" := JInt 2 ]} |}.

Definition cancelled : Run := {| run_status := PyStr "Cancelled"; run_output := None |}.

Fixpoint half_seconds (n : nat) : float :=
  match n with
  | O => 0%float
  | S n => (half_seconds n + 0.5)%float
  end.

(** The engine answers the third request with [last]. *)
Definition dashboard (last : Run) : Dashboard :=
  {| environ := λ _, None;
     http_get := λ sent _,
       if (length sent <? 2)%nat then Ok (Some [running]) else Ok (Some [last; running]);
     clock := half_seconds |}.

Definition browser : Browser := {| requests := []; clock_reads := 0; sleeps := [] |}.
End Stub.
(** * Properties *)

(** ** Running the monad *)

Lemma bind_run {A B} (m : M A) (f : A → M B) (w : World) :
  (m ≫= f) w = match m w with (Ok a, w') => f a w' | (Raise e, w') => (Raise e, w') end.
Proof. reflexivity. Qed.

Lemma truthy_spec (v : pyval) : truthy v = true ↔ v ≠ PyNone ∧ v ≠ PyStr "".
Proof.
  destruct v as [|s]; simpl.
  - split; [done | by intros [? _]].
  - destruct (String.eqb_spec s ""); simpl; split; try done.
    + intros [_ H]. by subst.
    + intros _. split; [done | congruence].
Qed.

(** ** Calls of the client *)

Section client.
Context (ext : Externals).

(** A call of [search] without the keyword [collection_name] but with a
    query vector stops at the binding of its arguments. *)
Lemma client_search_unbound self kw w :
  named (keywords kw) "collection_name" = false →
  named (keywords kw) "query_vector" = true →
  QdrantClient.search ext self kw w = (Raise missing_collection_name, w).
Proof.
  intros Hc Hq. unfold QdrantClient.search. rewrite bind_run.
  unfold QdrantClient.bind. cbn [List.filter negb]. by rewrite Hc, Hq.
Qed.

Lemma storage_search_run self query_vector top_k w :
  QdrantStorage.search ext self query_vector top_k w = (Raise missing_collection_name, w).
Proof.
  unfold QdrantStorage.search. rewrite bind_run. by rewrite client_search_unbound.
Qed.

(** C6.  [QdrantStorage.search] returns no record at all, for no [top_k]:
    its one call of [client.search] gives the collection under the keyword
    [colelction_name], which the client does not have, so the call raises
    [TypeError] for the missing [collection_name] before a request is sent;
    the server is not asked and nothing is returned. *)
Theorem search_top_k_raises self query_vector top_k w :
  QdrantStorage.search ext self query_vector top_k w = (Raise missing_collection_name, w)
  ∧ filter is_search (calls (world (QdrantStorage.search ext self query_vector top_k w)))
    = filter is_search (calls w).
Proof. by rewrite storage_search_run. Qed.

End client.

(** ** Comprehensions over [range] *)

Lemma mapM_indexed {A B} (g : A → option B) (l : list A) (w : World) :
  mapM (λ x, indexed (g x)) l w = indexed (mapM g l) w.
Proof.
  induction l as [|x l IH]; [done|].
  cbn [mapM]. rewrite bind_run. destruct (g x) as [y|]; [|done]. cbn.
  rewrite bind_run, IH. by destruct (mapM g l).
Qed.

Lemma for_range_indexed {A} (g : nat → option A) (body : nat → M A) n w :
  (∀ i, body i = indexed (g i)) →
  for_range n body w = indexed (mapM g (seq 0 n)) w.
Proof.
  intros Hb. unfold for_range. rewrite <- mapM_indexed.
  revert w. induction (seq 0 n) as [|i l IH]; intros w; [done|].
  cbn [mapM]. rewrite !bind_run, Hb. destruct (indexed (g i) w) as [[y|e] w']; [|done].
  by rewrite !bind_run, IH.
Qed.

Lemma mapM_lookup_seq {A B} (f : A → B) (pre l : list A) :
  mapM (λ i, f <$> (pre ++ l) !! i) (seq (length pre) (length l)) = Some (map f l).
Proof.
  revert pre. induction l as [|x l IH]; intros pre; [done|].
  cbn [length seq mapM]. rewrite list_lookup_middle by done. cbn.
  specialize (IH (pre ++ [x])). rewrite length_app, <- app_assoc in IH. cbn in IH.
  rewrite Nat.add_1_r in IH. by rewrite IH.
Qed.

Lemma upsert_payloads_run source_id chunks w :
  upsert_payloads source_id chunks w
  = (Ok (map (λ chunk, {[ "source" := JStr source_id; "text" := JStr chunk ]}) chunks), w).
Proof.
  unfold upsert_payloads.
  rewrite (for_range_indexed
             (λ i, (λ chunk, {[ "source" := JStr source_id; "text" := JStr chunk ]})
                     <$> chunks !! i)).
  - by rewrite (mapM_lookup_seq _ [] chunks).
  - intros i. unfold py_index. by destruct (chunks !! i).
Qed.

Section ingestion.
Context (ext : Externals).

Lemma embed_texts_run texts w :
  embed_texts ext texts w
  = (match embeddings_response ext (calls w) EMBED_MODEL texts with
     | Ok data => Ok (map embedding data)
     | Raise e => Raise e
     end, log (EmbeddingsCreate EMBED_MODEL texts) w).
Proof.
  unfold embed_texts. rewrite bind_run. unfold embeddings_create.
  by destruct (embeddings_response _ _ _ _).
Qed.

Lemma _upsert_run cs w :
  _upsert ext cs w
  = (match embeddings_response ext (calls w) EMBED_MODEL (RAGChunkAndSrc.chunks cs) with
     | Ok _ => Raise unbound_self
     | Raise e => Raise e
     end, log (EmbeddingsCreate EMBED_MODEL (RAGChunkAndSrc.chunks cs)) w).
Proof.
  unfold _upsert. rewrite bind_run, embed_texts_run.
  destruct (embeddings_response _ _ _ _); [|done].
  by rewrite bind_run, upsert_payloads_run.
Qed.

Lemma _upsert_never_returns cs w :
  ∃ e, result (_upsert ext cs w) = Raise e.
Proof.
  rewrite _upsert_run. unfold result. simpl.
  destruct (embeddings_response _ _ _ _); eauto.
Qed.

Lemma _upsert_server cs w : server (world (_upsert ext cs w)) = server w.
Proof. by rewrite _upsert_run. Qed.

Lemma _upsert_calls cs w :
  calls (world (_upsert ext cs w))
  = calls w ++ [EmbeddingsCreate EMBED_MODEL (RAGChunkAndSrc.chunks cs)].
Proof. by rewrite _upsert_run. Qed.

End ingestion.

(** ** [QdrantStorage.upsert] on an instance *)

Lemma build_points_run ids vectors payloads w :
  for_range (length ids) (λ i,
    id ← py_index ids i;
    vector ← py_index vectors i;
    payload ← py_index payloads i;
    mret {| point_id := id; point_vector := vector; point_payload := payload |}) w
  = indexed (mapM (point_at ids vectors payloads) (seq 0 (length ids))) w.
Proof.
  apply for_range_indexed. intros i. unfold point_at, py_index.
  destruct (ids !! i); [|done]. destruct (vectors !! i); [|done].
  by destruct (payloads !! i).
Qed.

Lemma build_points_ids ids vectors payloads pts :
  mapM (point_at ids vectors payloads) (seq 0 (length ids)) = Some pts →
  map point_id pts = ids.
Proof.
  intros H%mapM_Some_1. apply list_eq. intros i.
  rewrite list_lookup_fmap.
  destruct (ids !! i) as [id|] eqn:Hid.
  - pose proof (lookup_lt_Some _ _ _ Hid) as Hlt.
    assert (Hs : seq 0 (length ids) !! i = Some i) by by apply lookup_seq.
    destruct (Forall2_lookup_l _ _ _ _ _ H Hs) as (p & Hp & Hat).
    rewrite Hp. simpl. unfold point_at in Hat. rewrite Hid in Hat. simpl in Hat.
    destruct (vectors !! i); [|done]. destruct (payloads !! i); [|done].
    simpl in Hat. by injection Hat as <-.
  - apply lookup_ge_None in Hid. apply Forall2_length in H. rewrite length_seq in H.
    rewrite (proj2 (lookup_ge_None pts i)); [done | lia].
Qed.

Section stored.
Context (ext : Externals).

Lemma put_dom cfg pts m :
  dom (fold_left (QdrantClient.put ext cfg) pts m) = dom m ∪ list_to_set (map point_id pts).
Proof.
  revert m. induction pts as [|p pts IH]; intros m; simpl.
  - by rewrite (right_id_L ∅ (∪)).
  - rewrite IH. unfold QdrantClient.put. rewrite dom_insert_L.
    by rewrite (comm_L (∪) {[point_id p]} (dom m)), (assoc_L (∪)).
Qed.

Lemma put_lookup cfg pts m k :
  fold_left (QdrantClient.put ext cfg) pts m !! k
  = match final ext cfg pts k with Some x => Some x | None => m !! k end.
Proof.
  revert m. induction pts as [|p pts IH]; intros m; simpl; [done|].
  rewrite IH. destruct (final ext cfg pts k); [done|].
  unfold QdrantClient.put. rewrite lookup_insert. by destruct (decide (point_id p = k)).
Qed.

Lemma put_twice cfg pts m :
  fold_left (QdrantClient.put ext cfg) pts (fold_left (QdrantClient.put ext cfg) pts m)
  = fold_left (QdrantClient.put ext cfg) pts m.
Proof.
  apply map_eq. intros k. rewrite !put_lookup. by destruct (final ext cfg pts k).
Qed.

Lemma storage_upsert_run self ids vectors payloads w :
  QdrantStorage.upsert ext self ids vectors payloads w
  = match mapM (point_at ids vectors payloads) (seq 0 (length ids)) with
    | Some pts =>
        QdrantClient.upsert ext (QdrantStorage.client self) (QdrantStorage.collection self)
          pts w
    | None => (Raise IndexError, w)
    end.
Proof.
  unfold QdrantStorage.upsert. rewrite bind_run, build_points_run.
  by destruct (mapM _ _).
Qed.

(** What a call of the client's [upsert] does to the server. *)
Lemma client_upsert_server self name pts w :
  server (world (QdrantClient.upsert ext self name pts w)) = server w
  ∨ ∃ c, server w !! name = Some c
         ∧ result (QdrantClient.upsert ext self name pts w) = Ok ()
         ∧ server (world (QdrantClient.upsert ext self name pts w))
           = <[name := {| config := config c;
                          points := fold_left (QdrantClient.put ext (config c)) pts
                                      (points c) |}]> (server w).
Proof.
  unfold QdrantClient.upsert. simpl. destruct (points_refusal ext pts); [by left|].
  destruct (server w !! name) as [c|] eqn:Hc; [|by left].
  destruct (forallb _ pts); [|by left]. right. by exists c.
Qed.

(** A call that returns found the collection, the points accepted and all
    vectors of the size of the collection. *)
Lemma client_upsert_Ok self name pts w :
  result (QdrantClient.upsert ext self name pts w) = Ok () →
  ∃ c, server w !! name = Some c
       ∧ points_refusal ext pts = None
       ∧ Forall (λ p, Z.of_nat (length (point_vector p)) = params_size (config c)) pts
       ∧ server (world (QdrantClient.upsert ext self name pts w))
         = <[name := {| config := config c;
                        points := fold_left (QdrantClient.put ext (config c)) pts
                                    (points c) |}]> (server w).
Proof.
  unfold QdrantClient.upsert. simpl. destruct (points_refusal ext pts) eqn:Hr; [done|].
  destruct (server w !! name) as [c|] eqn:Hc; [|done].
  destruct (forallb _ pts) eqn:Hf; [|done]. intros _. exists c.
  split; [done|]. split; [done|]. split; [|done].
  apply Forall_forall. intros p Hp.
  rewrite forallb_forall in Hf. apply Z.eqb_eq, Hf. by apply list_elem_of_In.
Qed.

Lemma record_ids_upsert s name c pts :
  s !! name = Some c →
  record_ids (<[name := {| config := config c;
                           points := fold_left (QdrantClient.put ext (config c)) pts
                                       (points c) |}]> s) name
  = record_ids s name ∪ list_to_set (map point_id pts).
Proof.
  intros Hc. unfold record_ids. rewrite lookup_insert_eq, Hc. simpl. apply put_dom.
Qed.
End stored.

Lemma record_count_ids s name : record_count s name = size (record_ids s name).
Proof.
  unfold record_count, record_ids. destruct (s !! name); [by rewrite size_dom | done].
Qed.


Lemma upsert_ids_length source_id chunks :
  length (upsert_ids source_id chunks) = length chunks.
Proof. unfold upsert_ids. by rewrite length_map, length_seq. Qed.

Lemma upsert_ids_lookup source_id chunks i :
  (i < length chunks)%nat → upsert_ids source_id chunks !! i = Some (derive_id source_id i).
Proof.
  intros Hi. unfold upsert_ids. change (map ?f ?l) with (f <$> l).
  by rewrite list_lookup_fmap, lookup_seq_lt.
Qed.

(** On a handle the point built at position [i] is the record of chunk [i]. *)
Lemma bound_upsert_point source_id chunks vecs payloads w i chunk vector :
  upsert_payloads source_id chunks w = (Ok payloads, w) →
  chunks !! i = Some chunk → vecs !! i = Some vector →
  point_at (upsert_ids source_id chunks) vecs payloads i
  = Some {| point_id := derive_id source_id i;
            point_vector := vector;
            point_payload := {[ "source" := JStr source_id; "text" := JStr chunk ]} |}.
Proof.
  rewrite upsert_payloads_run. intros [= <-] Hc Hv. unfold point_at.
  rewrite upsert_ids_lookup by (by eapply lookup_lt_Some). simpl. rewrite Hv. simpl.
  change (map ?f ?l) with (f <$> l). by rewrite list_lookup_fmap, Hc.
Qed.

(** ** The constructor and retrieval *)

Section retrieval.
Context (ext : Externals).

Lemma init_run url c dim w :
  QdrantStorage.__init__ ext url c dim w
  = match server w !! c with
    | Some _ => (Ok (handle url c), log (CollectionExists c) w)
    | None =>
        match config_refusal ext {| params_size := dim; params_distance := COSINE |} with
        | Some e =>
            (Raise e,
             log (CreateCollection c {| params_size := dim; params_distance := COSINE |})
               (log (CollectionExists c) w))
        | None =>
            (Ok (handle url c),
             with_server (<[c := fresh dim]> (server w))
               (log (CreateCollection c {| params_size := dim; params_distance := COSINE |})
                  (log (CollectionExists c) w)))
        end
    end.
Proof.
  unfold QdrantStorage.__init__. rewrite bind_run. unfold QdrantClient.collection_exists.
  simpl. destruct (server w !! c) as [col|] eqn:Hc.
  - rewrite bool_decide_true by eauto. done.
  - rewrite bool_decide_false by (intros [? ?]; done). simpl.
    rewrite bind_run. unfold QdrantClient.create_collection. simpl. rewrite Hc.
    by destruct (config_refusal ext _).
Qed.


(** A retrieval calls the embedder; when that answers with at least one
    vector the handle is constructed; when that succeeds [store.search] is
    called and raises. *)
Lemma _search_run question k w :
  _search ext question k w
  = match result (embed_texts ext [question] w) with
    | Ok (_ :: _) =>
        (match result (QdrantStorage.__init__ ext QdrantStorage.default_url
                         QdrantStorage.default_collection QdrantStorage.default_dim
                         (embedded question w)) with
         | Ok _ => Raise missing_collection_name
         | Raise e => Raise e
         end, query_world ext question w)
    | Ok [] => (Raise IndexError, embedded question w)
    | Raise e => (Raise e, embedded question w)
    end.
Proof.
  unfold _search, query_world. rewrite bind_run, embed_texts_run. unfold result. simpl.
  fold (embedded question w).
  destruct (embeddings_response _ _ _ _) as [data|e]; [|done].
  rewrite bind_run. unfold py_index. destruct data as [|d data]; [done|]. simpl.
  rewrite bind_run.
  destruct (QdrantStorage.__init__ _ _ _ _ _) as [[store|e] w1]; [|done]. simpl.
  by rewrite bind_run, storage_search_run.
Qed.

Lemma _search_raises question k w : ∃ e, result (_search ext question k w) = Raise e.
Proof.
  rewrite _search_run. destruct (result (embed_texts _ _ _)) as [[|v vs]|e]; eauto.
  unfold result at 1. simpl. destruct (result _); eauto.
Qed.


Lemma init_calls url c dim w (P : call → Prop) `{!∀ c, Decision (P c)} :
  (∀ name, ¬ P (CollectionExists name)) →
  (∀ name cfg, ¬ P (CreateCollection name cfg)) →
  filter P (calls (world (QdrantStorage.__init__ ext url c dim w))) = filter P (calls w).
Proof.
  intros H1 H2. rewrite init_run.
  destruct (server w !! c); [|destruct (config_refusal ext _)]; simpl;
    rewrite ?filter_app, ?filter_cons_False, ?filter_nil by auto; by rewrite ?app_nil_r.
Qed.

Lemma _search_calls question k w (P : call → Prop) `{!∀ c, Decision (P c)} :
  ¬ P (EmbeddingsCreate EMBED_MODEL [question]) →
  (∀ name, ¬ P (CollectionExists name)) →
  (∀ name cfg, ¬ P (CreateCollection name cfg)) →
  filter P (calls (world (_search ext question k w))) = filter P (calls w).
Proof.
  intros H0 H1 H2.
  assert (He : filter P (calls (embedded question w)) = filter P (calls w)).
  { simpl. rewrite filter_app, filter_cons_False, filter_nil by done. by rewrite app_nil_r. }
  rewrite _search_run. destruct (result _) as [[|v vs]|e]; try done.
  unfold world, query_world. simpl. by rewrite init_calls.
Qed.
End retrieval.

(** ** Ingestion and retrieval *)

Section pipelines.
Context (ext : Externals).

Lemma mapM_answer_world {A B} (g : A → Outcome B) (l : list A) w :
  world (mapM (λ x, answer (g x)) l w) = w.
Proof.
  induction l as [|x l IH]; [done|].
  cbn [mapM]. rewrite bind_run. unfold answer at 1. destruct (g x); [|done].
  rewrite bind_run. destruct (mapM (M:=M) _ l w) as [[ys|e] w'] eqn:Hl; simpl in *; by subst.
Qed.

Lemma load_and_chunk_pdf_world path w : world (load_and_chunk_pdf ext path w) = w.
Proof.
  unfold load_and_chunk_pdf. rewrite bind_run. unfold answer at 1.
  destruct (load_data ext path) as [docs|e]; [|done].
  rewrite bind_run.
  match goal with |- context [mapM (M:=M) ?f ?l w] =>
    pose proof (mapM_answer_world (split_texts ext) l w) as Hw;
    destruct (mapM (M:=M) f l w) as [[ys|e] w'] end; simpl in *; by subst.
Qed.

Lemma _load_world event w : world (_load ext event w) = w.
Proof.
  unfold _load. rewrite bind_run.
  pose proof (load_and_chunk_pdf_world (pdf_path event) w) as Hw.
  destruct (load_and_chunk_pdf _ _ _) as [[cs|e] w']; simpl in *; by subst.
Qed.

Lemma rag_ingest_pdf_run event w cs w1 :
  _load ext event w = (Ok cs, w1) →
  world (rag_ingest_pdf ext event w) = world (_upsert ext cs w).
Proof.
  intros Hl. pose proof (_load_world event w) as Hw. rewrite Hl in Hw. simpl in Hw. subst w1.
  unfold rag_ingest_pdf. rewrite bind_run, Hl, bind_run.
  by destruct (_upsert ext cs w) as [[r|e] w'].
Qed.

Lemma rag_ingest_pdf_server event w : server (world (rag_ingest_pdf ext event w)) = server w.
Proof.
  destruct (_load ext event w) as [[cs|e] w1] eqn:Hl.
  - rewrite (rag_ingest_pdf_run _ _ _ _ Hl). apply _upsert_server.
  - pose proof (_load_world event w) as Hw. rewrite Hl in Hw. simpl in Hw. subst w1.
    unfold rag_ingest_pdf. by rewrite bind_run, Hl.
Qed.

(** C3, amended.  An ingestion run whose chunker output is empty does not
    short-circuit: it calls the embedder exactly once, with the empty list of
    texts, and the id and payload lists it builds for the store are empty. *)
Theorem ingest_empty_still_embeds event w source w1 :
  _load ext event w
  = (Ok {| RAGChunkAndSrc.chunks := []; RAGChunkAndSrc.source_id := source |}, w1) →
  filter is_embed (calls (world (rag_ingest_pdf ext event w)))
  = filter is_embed (calls w) ++ [EmbeddingsCreate EMBED_MODEL []]
  ∧ upsert_ids source [] = []
  ∧ upsert_payloads source [] w1 = (Ok [], w1).
Proof.
  intros Hl. rewrite (rag_ingest_pdf_run _ _ _ _ Hl), _upsert_calls. simpl.
  by rewrite filter_app.
Qed.

Lemma rag_ingest_pdf_raises event w : ∃ e, result (rag_ingest_pdf ext event w) = Raise e.
Proof.
  unfold rag_ingest_pdf. rewrite bind_run.
  destruct (_load ext event w) as [[cs|e] w1]; [|by exists e].
  rewrite bind_run. destruct (_upsert_never_returns ext cs w1) as [e He].
  destruct (_upsert ext cs w1) as [[r|e'] w2]; [done | by exists e'].
Qed.

Lemma rag_ingest_pdf_upserts event w :
  filter is_upsert (calls (world (rag_ingest_pdf ext event w))) = filter is_upsert (calls w).
Proof.
  destruct (_load ext event w) as [[cs|e] w1] eqn:Hl.
  - rewrite (rag_ingest_pdf_run _ _ _ _ Hl), _upsert_calls.
    rewrite filter_app, filter_cons_False, filter_nil by (simpl; auto).
    by rewrite app_nil_r.
  - pose proof (_load_world event w) as Hw. rewrite Hl in Hw. simpl in Hw. subst w1.
    unfold rag_ingest_pdf. by rewrite bind_run, Hl.
Qed.

(** C1.  Ingestion does not store, so a second run finds nothing to
    overwrite: for every event and on every server both runs of
    [rag_ingest_pdf] raise, no [upsert] reaches the client, and the server,
    the ids and the record count of every collection are after the second
    run what they were before the first.  When the PDF loads and the
    embedder answers, what is raised is the [TypeError] of the call of
    [QdrantStorage.upsert] on the class. *)
Theorem ingest_twice_stores_nothing event w :
  let r1 := rag_ingest_pdf ext event w in
  let r2 := rag_ingest_pdf ext event (world r1) in
  ((∃ e, result r1 = Raise e) ∧ (∃ e, result r2 = Raise e))
  ∧ (server (world r1) = server w ∧ server (world r2) = server w)
  ∧ filter is_upsert (calls (world r2)) = filter is_upsert (calls w)
  ∧ (∀ name, record_ids (server (world r2)) name = record_ids (server w) name
             ∧ record_count (server (world r2)) name = record_count (server w) name)
  ∧ (∀ cs w1 data,
       _load ext event w = (Ok cs, w1) →
       embeddings_response ext (calls w) EMBED_MODEL (RAGChunkAndSrc.chunks cs) = Ok data →
       result r1 = Raise unbound_self).
Proof.
  intros r1 r2.
  assert (H2 : server (world r2) = server w).
  { unfold r2. rewrite rag_ingest_pdf_server. apply rag_ingest_pdf_server. }
  split; [split; apply rag_ingest_pdf_raises|].
  split; [split; [apply rag_ingest_pdf_server | done]|].
  split; [unfold r2, r1; by rewrite !rag_ingest_pdf_upserts|].
  split; [intros name; by rewrite H2|].
  intros cs w1 data Hl He. pose proof (_load_world event w) as Hw. rewrite Hl in Hw.
  simpl in Hw. subst w1. unfold r1, rag_ingest_pdf.
  rewrite bind_run, Hl, bind_run, _upsert_run. by rewrite He.
Qed.

End pipelines.

(** C5, amended.  For a collection that already exists the constructor is
    a no-op that validates nothing: whatever the stored dimension and metric
    and whatever [dim] the caller passes, it returns the handle, leaves the
    server unchanged and issues the existence check only. *)
Theorem init_existing_collection ext url c dim w col :
  server w !! c = Some col →
  result (QdrantStorage.__init__ ext url c dim w) = Ok (handle url c)
  ∧ server (world (QdrantStorage.__init__ ext url c dim w)) = server w
  ∧ calls (world (QdrantStorage.__init__ ext url c dim w)) = calls w ++ [CollectionExists c].
Proof. intros Hc. by rewrite init_run, Hc. Qed.

(** ** Identity *)

Lemma list_ascii_of_string_app s t :
  list_ascii_of_string (s +:+ t) = list_ascii_of_string s ++ list_ascii_of_string t.
Proof. induction s as [|c s IH]; simpl; [done | by rewrite IH]. Qed.

Lemma string_app_inv_tail s1 s2 t : s1 +:+ t = s2 +:+ t → s1 = s2.
Proof.
  intros H. apply (f_equal list_ascii_of_string) in H.
  rewrite !list_ascii_of_string_app in H. apply app_inv_tail in H.
  rewrite <- (string_of_list_ascii_of_string s1), <- (string_of_list_ascii_of_string s2).
  by rewrite H.
Qed.

Lemma id_name_inj s1 s2 i : id_name s1 i = id_name s2 i → s1 = s2.
Proof. unfold id_name. apply string_app_inv_tail. Qed.

(** *** [str] is injective on 128-bit integers *)

Lemma hexdigit_inj d1 d2 :
  0 ≤ d1 < 16 → 0 ≤ d2 < 16 → uuid.hexdigit d1 = uuid.hexdigit d2 → d1 = d2.
Proof.
  intros H1 H2 H.
  assert (E1 : d1 ∈ [0;1;2;3;4;5;6;7;8;9;10;11;12;13;14;15]).
  { repeat (rewrite elem_of_cons). lia. }
  assert (E2 : d2 ∈ [0;1;2;3;4;5;6;7;8;9;10;11;12;13;14;15]).
  { repeat (rewrite elem_of_cons). lia. }
  repeat (apply elem_of_cons in E1 as [->|E1]); [..|by apply elem_of_nil in E1];
    repeat (apply elem_of_cons in E2 as [->|E2]); try (by apply elem_of_nil in E2);
    try reflexivity; vm_compute in H; discriminate H.
Qed.

Lemma nibble_bits u1 u2 :
  (∀ i, (i < 32)%nat → nibble u1 i = nibble u2 i) →
  ∀ n, 0 ≤ n < 128 → Z.testbit u1 n = Z.testbit u2 n.
Proof.
  intros H n Hn.
  set (i := (31 - Z.to_nat (n / 4))%nat).
  assert (Hi : (i < 32)%nat) by lia.
  assert (Hq : 4 * Z.of_nat (31 - i) = 4 * (n / 4)).
  { subst i. assert (0 ≤ n / 4 < 32) by (split; [apply Z.div_pos | apply Z.div_lt_upper_bound]; lia). lia. }
  specialize (H i Hi). unfold nibble in H. rewrite Hq in H.
  assert (Hb : ∀ u, Z.testbit u n = Z.testbit (Z.shiftr u (4 * (n / 4)) mod 16) (n mod 4)).
  { intros u. change 16 with (2 ^ 4).
    rewrite Z.mod_pow2_bits_low by (apply Z.mod_pos_bound; lia).
    rewrite Z.shiftr_spec by (apply Z.mod_pos_bound; lia).
    f_equal. pose proof (Z.div_mod n 4). lia. }
  by rewrite (Hb u1), (Hb u2), H.
Qed.

Lemma bits_above u n : 0 ≤ u < 2 ^ 128 → 128 ≤ n → Z.testbit u n = false.
Proof.
  intros Hu Hn. destruct (decide (u = 0)) as [->|Hne]; [apply Z.bits_0|].
  apply Z.bits_above_log2; [lia|].
  assert (Z.log2 u < 128) by (apply Z.log2_lt_pow2; lia). lia.
Qed.

Lemma hex32_inj u1 u2 :
  0 ≤ u1 < 2 ^ 128 → 0 ≤ u2 < 2 ^ 128 → uuid.hex32 u1 = uuid.hex32 u2 → u1 = u2.
Proof.
  intros H1 H2 H. apply Z.bits_inj'. intros n Hn.
  destruct (decide (n < 128)) as [Hlt|Hge].
  - apply nibble_bits; [|lia]. intros i Hi.
    apply hexdigit_inj; try (apply Z.mod_pos_bound; lia).
    unfold uuid.hex32 in H.
    assert (Hs : seq 0 32 !! i = Some i) by by apply lookup_seq.
    apply (f_equal (λ l, l !! i)) in H.
    change (map ?f ?l) with (f <$> l) in H.
    rewrite !list_lookup_fmap, Hs in H. simpl in H. by injection H.
  - by rewrite !bits_above by lia.
Qed.

Lemma hex32_length u : length (uuid.hex32 u) = 32%nat.
Proof. unfold uuid.hex32. by rewrite length_map, length_seq. Qed.

Lemma string_of_list_ascii_inj l1 l2 :
  string_of_list_ascii l1 = string_of_list_ascii l2 → l1 = l2.
Proof.
  intros H. by rewrite <- (list_ascii_of_string_of_list_ascii l1), H,
    list_ascii_of_string_of_list_ascii.
Qed.

Lemma str_inj u1 u2 :
  0 ≤ u1 < 2 ^ 128 → 0 ≤ u2 < 2 ^ 128 → uuid.str u1 = uuid.str u2 → u1 = u2.
Proof.
  intros H1 H2 H. apply hex32_inj; try done.
  unfold uuid.str in H. apply string_of_list_ascii_inj in H.
  pose proof (hex32_length u1) as L1. pose proof (hex32_length u2) as L2.
  revert H. generalize dependent (uuid.hex32 u2). generalize dependent (uuid.hex32 u1).
  intros h1 L1 h2 L2.
  do 32 (destruct h1 as [|? h1]; [discriminate L1|]).
  do 32 (destruct h2 as [|? h2]; [discriminate L2|]).
  destruct h1; [|discriminate L1]. destruct h2; [|discriminate L2].
  cbn. intros H. by simplify_eq.
Qed.

(** *** [uuid5] yields a 128-bit integer *)

Lemma from_bytes_big_bound bs acc :
  Forall (λ b, 0 ≤ b < 256) bs → 0 ≤ acc →
  0 ≤ fold_left (λ a b, a * 256 + b) bs acc
    < (acc + 1) * 256 ^ Z.of_nat (length bs).
Proof.
  intros Hbs. revert acc. induction Hbs as [|b bs Hb _ IH]; intros acc Hacc.
  - simpl. lia.
  - cbn [fold_left length]. specialize (IH (acc * 256 + b) ltac:(lia)).
    rewrite Nat2Z.inj_succ, Z.pow_succ_r by lia.
    assert (0 < 256 ^ Z.of_nat (length bs)) by (apply Z.pow_pos_nonneg; lia).
    nia.
Qed.

Lemma to_bytes_big_range n x : Forall (λ b, 0 ≤ b < 256) (hashlib.to_bytes_big n x).
Proof.
  unfold hashlib.to_bytes_big. apply Forall_forall. intros b Hb.
  change (map ?f ?l) with (f <$> l) in Hb.
  apply list_elem_of_fmap in Hb as (i & -> & _). apply Z.mod_pos_bound. lia.
Qed.

Lemma sha1_range msg : Forall (λ b, 0 ≤ b < 256) (hashlib.sha1 msg).
Proof.
  unfold hashlib.sha1. destruct (fold_left _ _ _) as [[[[h0 h1] h2] h3] h4].
  repeat (apply Forall_app; split); apply to_bytes_big_range.
Qed.

Lemma UUID_range bs version :
  Forall (λ b, 0 ≤ b < 256) bs → (length bs ≤ 16)%nat → 0 ≤ version < 16 →
  0 ≤ uuid.UUID bs version < 2 ^ 128.
Proof.
  intros Hbs Hlen Hv. unfold uuid.UUID.
  pose proof (from_bytes_big_bound bs 0 Hbs ltac:(lia)) as Hint.
  fold (hashlib.from_bytes_big bs) in Hint.
  set (int := hashlib.from_bytes_big bs) in *.
  assert (Hint' : 0 ≤ int < 2 ^ 128).
  { split; [lia|]. eapply Z.lt_le_trans; [apply Hint|].
    change (2 ^ 128) with (256 ^ 16). rewrite Z.mul_1_l.
    apply Z.pow_le_mono_r; lia. }
  clear Hint.
  match goal with |- 0 ≤ ?r < _ => set (res := r) end.
  assert (Hnn : 0 ≤ res).
  { subst res. apply Z.lor_nonneg. split; [|apply Z.shiftl_nonneg; lia].
    apply Z.land_nonneg. left. apply Z.lor_nonneg. split; [|done].
    apply Z.land_nonneg. left. lia. }
  split; [done|].
  destruct (decide (res < 2 ^ 128)) as [|Hge]; [done|]. exfalso.
  assert (Hpos : 0 < res) by lia.
  pose proof (Z.bit_log2 res Hpos) as Hbit.
  assert (Hlog : 128 ≤ Z.log2 res) by (apply Z.log2_le_pow2; lia).
  revert Hbit. generalize dependent (Z.log2 res). intros n Hn. subst res.
  rewrite Z.lor_spec, Z.land_spec, Z.lor_spec, Z.land_spec.
  rewrite (bits_above int n) by (done || lia).
  rewrite (bits_above (Z.shiftl 32768 48) n) by (done || lia).
  rewrite (bits_above (Z.shiftl version 76) n); [done| |lia].
  rewrite Z.shiftl_mul_pow2 by lia. change (2 ^ 128) with (2 ^ 52 * 2 ^ 76).
  assert (0 < 2 ^ 76) by done. assert (16 < 2 ^ 52) by done. nia.
Qed.

Lemma uuid5_range namespace name : 0 ≤ uuid.uuid5 namespace name < 2 ^ 128.
Proof.
  unfold uuid.uuid5. apply UUID_range; [|rewrite length_take; lia|lia].
  apply Forall_take, sha1_range.
Qed.

(** C2.  The id is a function of the source and the index, so it is the
    same on every evaluation.  Two different sources give different names at
    every index, and their ids differ unless [uuid5], that is SHA-1 cut to the
    bits a UUID keeps, maps the two different names to the same UUID. *)
Theorem derive_id_distinct_sources s1 s2 i :
  s1 ≠ s2 →
  derive_id s1 i = derive_id s1 i
  ∧ id_name s1 i ≠ id_name s2 i
  ∧ (derive_id s1 i ≠ derive_id s2 i
     ∨ uuid.uuid5 uuid.NAMESPACE_URL (id_name s1 i)
       = uuid.uuid5 uuid.NAMESPACE_URL (id_name s2 i)).
Proof.
  intros Hne. split; [done|]. split; [by intros ?%id_name_inj|].
  destruct (decide (derive_id s1 i = derive_id s2 i)) as [Heq|]; [right | by left].
  apply str_inj; [apply uuid5_range.. | exact Heq].
Qed.

(** ** The properties at concrete inputs *)

(** Closed runs are settled by evaluation. *)
Ltac evaluate := vm_compute; reflexivity.

Example derive_id_doc1_0 : derive_id "doc1" 0 = "ac3bc37d-f169-5f73-842f-b277e90123ad".
Proof. evaluate. Qed.

Example derive_id_doc1_doc2 : derive_id "doc1" 0 ≠ derive_id "doc2" 0.
Proof. vm_compute. discriminate. Qed.

(** The digest of ["abc"] and ids of one and two message blocks, as Python
    computes them. *)
Example sha1_abc :
  hashlib.sha1 (encode "abc")
  = [169; 153; 62; 54; 71; 6; 129; 106; 186; 62; 37; 113; 120; 80; 194; 108; 156; 208; 216; 157].
Proof. evaluate. Qed.

Example derive_id_two_blocks :
  derive_id "a-long-file-name-with-more-than-fifty-five-characters-in-it.pdf" 17
  = "ae47f77f-63eb-5985-b7e6-3c29c4d9fa6b".
Proof. evaluate. Qed.

Example derive_id_doc1_1 : derive_id "doc1" 1 = "2102f41f-82a4-5909-a638-d8a95138cf65".
Proof. evaluate. Qed.

Lemma derive_id_distinct_sources_witness :
  "doc1" ≠ "doc2"
  ∧ (derive_id "doc1" 0 = derive_id "doc1" 0
     ∧ id_name "doc1" 0 ≠ id_name "doc2" 0
     ∧ (derive_id "doc1" 0 ≠ derive_id "doc2" 0
        ∨ uuid.uuid5 uuid.NAMESPACE_URL (id_name "doc1" 0)
          = uuid.uuid5 uuid.NAMESPACE_URL (id_name "doc2" 0))).
Proof. split; [done | by apply (derive_id_distinct_sources "doc1" "doc2" 0)]. Defined.




(** The call of [client.search] as line 37-42 writes it, and with the
    keyword the client has. *)
Example client_search_as_written :
  QdrantClient.search Fake.ext (QdrantStorage.client Fake.storage)
    [ ("colelction_name", ArgStr "docs"); ("query_vector", ArgVector Fake.query);
      ("with_payload", ArgBool true); ("limit", ArgInt 3) ] Fake.world
  = (Raise missing_collection_name, Fake.world).
Proof. evaluate. Qed.

Example client_search_bound :
  result (QdrantClient.search Fake.ext (QdrantStorage.client Fake.storage)
            [ ("collection_name", ArgStr "docs"); ("query_vector", ArgVector Fake.query);
              ("with_payload", ArgBool true); ("limit", ArgInt 3) ] Fake.world)
  = Ok (Fake.nearest Fake.world 3).
Proof. evaluate. Qed.

(** The loop on values that are not texts: a number is a context like any
    other value that is true, equal numbers are one source whatever their
    types, two NaN are two sources, and a list cannot be a source. *)
Example collect_numbers :
  result (QdrantStorage.collect
            [ {| sp_id := Fake.id1; sp_score := 1%float;
                 sp_payload := Some {[ "text" := JInt 5; "source" := JInt 1 ]} |};
              {| sp_id := Fake.id2; sp_score := 1%float;
                 sp_payload := Some {[ "text" := JList [JNull]; "source" := JBool true ]} |};
              {| sp_id := Fake.id3; sp_score := 1%float;
                 sp_payload := Some {[ "text" := JInt 0; "source" := JStr "c.pdf" ]} |} ]
            [] [] Fake.world)
  = Ok ([JInt 5; JList [JNull]], [JInt 1]).
Proof. evaluate. Qed.

Example collect_mixed :
  result (QdrantStorage.collect
            (map (λ p, {| sp_id := Fake.id1; sp_score := 1%float; sp_payload := p |})
               [ None; Some ∅;
                 Some {[ "text" := JFloat 1.5; "source" := JFloat 1 ]};
                 Some {[ "text" := JBool true; "source" := JInt 1 ]};
                 Some {[ "text" := JDict {[ "a" := JInt 1 ]}; "source" := JNull ]};
                 Some {[ "text" := JStr "x"; "source" := JFloat 0 ]};
                 Some {[ "text" := JStr "y"; "source" := JBool false ]};
                 Some {[ "text" := JFloat nan; "source" := JFloat nan ]};
                 Some {[ "text" := JStr "z"; "source" := JFloat nan ]} ])
            [] [] Fake.world)
  = Ok ([ JFloat 1.5; JBool true; JDict {[ "a" := JInt 1 ]}; JStr "x"; JStr "y";
          JFloat nan; JStr "z" ],
        [ JFloat 1; JNull; JFloat 0; JFloat nan; JFloat nan ]).
Proof. evaluate. Qed.

Example collect_unhashable :
  result (QdrantStorage.collect
            [ {| sp_id := Fake.id1; sp_score := 1%float;
                 sp_payload := Some {[ "text" := JStr "alpha"; "source" := JList [] ]} |} ]
            [] [] Fake.world)
  = Raise (TypeError "unhashable type: 'list'").
Proof. evaluate. Qed.

(** Two runs of the ingestion of a two-chunk document on a server with an
    empty ["docs"]: both raise, and the collection stays empty. *)
Example ingest_twice_at_doc1 :
  let w := Fake.holding (fresh 2) in
  let r1 := rag_ingest_pdf Fake.ext Fake.event w in
  let r2 := rag_ingest_pdf Fake.ext Fake.event (world r1) in
  result r1 = Raise unbound_self ∧ result r2 = Raise unbound_self
  ∧ record_count (server (world r2)) "docs" = 0%nat
  ∧ upsert_ids "doc1" ["alpha"; "beta"]
    = ["ac3bc37d-f169-5f73-842f-b277e90123ad"; "2102f41f-82a4-5909-a638-d8a95138cf65"].
Proof. repeat split; evaluate. Qed.

Lemma ingest_empty_still_embeds_witness :
  _load Fake.ext Fake.empty_event Fake.empty_world
  = (Ok {| RAGChunkAndSrc.chunks := []; RAGChunkAndSrc.source_id := "empty.pdf" |},
     Fake.empty_world)
  ∧ (filter is_embed (calls (world (rag_ingest_pdf Fake.ext Fake.empty_event Fake.empty_world)))
     = filter is_embed (calls Fake.empty_world) ++ [EmbeddingsCreate EMBED_MODEL []]
     ∧ upsert_ids "empty.pdf" [] = []
     ∧ upsert_payloads "empty.pdf" [] Fake.empty_world = (Ok [], Fake.empty_world)).
Proof.
  split; [evaluate|].
  apply (ingest_empty_still_embeds Fake.ext Fake.empty_event Fake.empty_world "empty.pdf"
           Fake.empty_world).
  evaluate.
Defined.

Lemma ingest_empty_counterexample :
  load_and_chunk_pdf Fake.ext (pdf_path Fake.empty_event) Fake.empty_world
  = (Ok [], Fake.empty_world)
  ∧ calls (world (rag_ingest_pdf Fake.ext Fake.empty_event Fake.empty_world))
    = [EmbeddingsCreate EMBED_MODEL []]
  ∧ ¬ (result (rag_ingest_pdf Fake.ext Fake.empty_event Fake.empty_world)
       = Ok {[ "ingested" := 0 ]}
       ∧ filter is_embed
           (calls (world (rag_ingest_pdf Fake.ext Fake.empty_event Fake.empty_world))) = []
       ∧ filter is_upsert
           (calls (world (rag_ingest_pdf Fake.ext Fake.empty_event Fake.empty_world))) = []).
Proof.
  split; [evaluate|]. split; [evaluate|].
  intros (_ & H & _). vm_compute in H. discriminate H.
Qed.

(** C4.  At a one-chunk document [_upsert] does not store the record the
    claim describes: the embedder is called, then the call of
    [QdrantStorage.upsert] on the class raises [TypeError] for the missing
    [self]; nothing reaches the server and no count is returned. *)
Theorem upsert_step_raises_before_storing :
  _upsert Fake.ext
    {| RAGChunkAndSrc.chunks := ["alpha"]; RAGChunkAndSrc.source_id := "doc1" |} Fake.world
  = (Raise unbound_self, log (EmbeddingsCreate EMBED_MODEL ["alpha"]) Fake.world).
Proof. evaluate. Qed.

Lemma init_existing_collection_witness :
  server Fake.world !! "docs" = Some Fake.docs
  ∧ (result (QdrantStorage.__init__ Fake.ext QdrantStorage.default_url "docs" 3072 Fake.world)
     = Ok (handle QdrantStorage.default_url "docs")
     ∧ server (world (QdrantStorage.__init__ Fake.ext QdrantStorage.default_url "docs" 3072 Fake.world))
       = server Fake.world
     ∧ calls (world (QdrantStorage.__init__ Fake.ext QdrantStorage.default_url "docs" 3072 Fake.world))
       = calls Fake.world ++ [CollectionExists "docs"]).
Proof.
  split; [evaluate|].
  apply (init_existing_collection Fake.ext QdrantStorage.default_url "docs" 3072 Fake.world
           Fake.docs).
  evaluate.
Defined.

Lemma init_mismatch_counterexample :
  server Fake.world !! "docs" = Some Fake.docs
  ∧ params_size (config Fake.docs) = 2
  ∧ QdrantStorage.default_dim = 3072
  ∧ QdrantStorage.__init__ Fake.ext QdrantStorage.default_url "docs" QdrantStorage.default_dim Fake.world
    = (Ok Fake.storage, log (CollectionExists "docs") Fake.world)
  ∧ ¬ (∃ e, result (QdrantStorage.__init__ Fake.ext QdrantStorage.default_url "docs"
                      QdrantStorage.default_dim Fake.world) = Raise e).
Proof.
  repeat split; try (evaluate).
  intros [e H]. vm_compute in H. discriminate H.
Qed.


(** * Further properties *)

(** ** More on [vector_db.py] *)

Section storage.
Context (ext : Externals).


Lemma point_at_is_Some ids vectors payloads i :
  is_Some (point_at ids vectors payloads i)
  ↔ (i < length ids ∧ i < length vectors ∧ i < length payloads)%nat.
Proof.
  unfold point_at. rewrite <- !lookup_lt_is_Some.
  destruct (ids !! i), (vectors !! i), (payloads !! i); simpl;
    split; intros H; try (by destruct H as [? ?]); try (by destruct H as (?&?&[? ?]));
    try (by destruct H as (?&[? ?]&?)); try (by destruct H as ([? ?]&?&?)); eauto.
Qed.

(** X2.  [QdrantStorage.upsert] with fewer vectors or fewer payloads than
    ids raises [IndexError] while it builds the points, before any call to
    the client: nothing is sent and nothing is stored. *)
Theorem upsert_short_lists_raise self ids vectors payloads w :
  (length vectors < length ids ∨ length payloads < length ids)%nat →
  QdrantStorage.upsert ext self ids vectors payloads w = (Raise IndexError, w).
Proof.
  intros Hlen. rewrite storage_upsert_run.
  destruct (mapM _ _) as [pts|] eqn:Hp; [|done]. exfalso.
  assert (Hall : Forall (is_Some ∘ point_at ids vectors payloads) (seq 0 (length ids))).
  { apply mapM_is_Some_1. by rewrite Hp. }
  rewrite Forall_forall in Hall.
  set (i := Nat.min (length vectors) (length payloads)).
  assert (Hi : (i < length ids)%nat) by lia.
  specialize (Hall i). simpl in Hall. rewrite point_at_is_Some in Hall.
  destruct Hall as (_ & ? & ?); [|lia].
  apply elem_of_seq. lia.
Qed.

Lemma build_points_Some ids vectors payloads :
  (length ids ≤ length vectors)%nat → (length ids ≤ length payloads)%nat →
  ∃ pts, mapM (point_at ids vectors payloads) (seq 0 (length ids)) = Some pts.
Proof.
  intros Hv Hp. apply mapM_is_Some_2, Forall_forall. intros i Hi%elem_of_seq.
  simpl. apply point_at_is_Some. lia.
Qed.

Lemma build_points_lookup ids vectors payloads pts i id :
  mapM (point_at ids vectors payloads) (seq 0 (length ids)) = Some pts →
  ids !! i = Some id →
  ∃ v p, vectors !! i = Some v ∧ payloads !! i = Some p
         ∧ pts !! i = Some {| point_id := id; point_vector := v; point_payload := p |}.
Proof.
  intros H%mapM_Some_1 Hid.
  pose proof (lookup_lt_Some _ _ _ Hid) as Hlt.
  assert (Hs : seq 0 (length ids) !! i = Some i) by by apply lookup_seq.
  destruct (Forall2_lookup_l _ _ _ _ _ H Hs) as (pt & Hpt & Hat).
  unfold point_at in Hat. rewrite Hid in Hat. simpl in Hat.
  destruct (vectors !! i) as [v|]; [|done]. destruct (payloads !! i) as [p|]; [|done].
  simpl in Hat. injection Hat as <-. eauto.
Qed.

Lemma build_points_length ids vectors payloads pts :
  mapM (point_at ids vectors payloads) (seq 0 (length ids)) = Some pts →
  length pts = length ids.
Proof. intros H%length_mapM. by rewrite length_seq in H. Qed.

(** X3.  With at least as many vectors and payloads as ids,
    [QdrantStorage.upsert] issues exactly one client call, for its own
    collection, with one point per id: the point at position [i] is the
    triple of the [i]-th id, vector and payload.  Vectors and payloads
    beyond the ids are dropped. *)
Theorem upsert_sends_triples self ids vectors payloads w :
  (length ids ≤ length vectors)%nat → (length ids ≤ length payloads)%nat →
  ∃ pts,
    calls (world (QdrantStorage.upsert ext self ids vectors payloads w))
    = calls w ++ [Upsert (QdrantStorage.collection self) pts]
    ∧ length pts = length ids
    ∧ ∀ i id, ids !! i = Some id →
        ∃ v p, vectors !! i = Some v ∧ payloads !! i = Some p
               ∧ pts !! i = Some {| point_id := id; point_vector := v; point_payload := p |}.
Proof.
  intros Hv Hp. destruct (build_points_Some ids vectors payloads Hv Hp) as [pts Hpts].
  exists pts. rewrite storage_upsert_run, Hpts. split; [|split].
  - unfold QdrantClient.upsert. simpl. destruct (points_refusal ext _); [done|].
    destruct (server w !! _); [|done]. by destruct (forallb _ _).
  - by eapply build_points_length.
  - intros i id. by apply build_points_lookup.
Qed.




(** ** Ids across documents of one source *)

Lemma upsert_ids_take source_id chunks n :
  upsert_ids source_id (take n chunks) = take n (upsert_ids source_id chunks).
Proof.
  unfold upsert_ids. rewrite length_take. change (map ?f ?l) with (f <$> l).
  rewrite <- fmap_take. f_equal.
  by rewrite take_seq.
Qed.

Lemma upsert_ids_prefix source_id short long :
  (length short ≤ length long)%nat →
  upsert_ids source_id short = take (length short) (upsert_ids source_id long).
Proof.
  intros Hle. rewrite <- upsert_ids_take. unfold upsert_ids. rewrite length_take.
  do 2 f_equal. lia.
Qed.

(** X7.  The ids [_upsert] builds depend on the source and the position
    only, not on the chunk texts: the ids of a document are a prefix of the
    ids of any document of the same source with at least as many chunks, the
    same list when the numbers of chunks agree, and position [i] holds
    [derive_id source_id i]. *)
Theorem upsert_ids_by_position source_id short long :
  (length short ≤ length long)%nat →
  upsert_ids source_id short = take (length short) (upsert_ids source_id long)
  ∧ (length short = length long → upsert_ids source_id short = upsert_ids source_id long)
  ∧ (∀ i, (i < length short)%nat →
       upsert_ids source_id short !! i = Some (derive_id source_id i)).
Proof.
  intros Hle. pose proof (upsert_ids_prefix source_id short long Hle) as H.
  split; [done|]. split.
  - intros Heq. rewrite H. apply take_ge. rewrite upsert_ids_length. lia.
  - intros i. apply upsert_ids_lookup.
Qed.

Lemma storage_upsert_ids_Ok self ids vectors payloads w :
  result (QdrantStorage.upsert ext self ids vectors payloads w) = Ok () →
  record_ids (server (world (QdrantStorage.upsert ext self ids vectors payloads w)))
    (QdrantStorage.collection self)
  = record_ids (server w) (QdrantStorage.collection self) ∪ list_to_set ids.
Proof.
  rewrite storage_upsert_run. destruct (mapM _ _) as [pts|] eqn:Hpts; [|done].
  intros (c & Hc & _ & _ & ->)%client_upsert_Ok.
  by rewrite (record_ids_upsert _ _ _ _ _ Hc), (build_points_ids _ _ _ _ Hpts).
Qed.

Lemma storage_upsert_ids_any self ids vectors payloads w name :
  record_ids (server (world (QdrantStorage.upsert ext self ids vectors payloads w))) name
  = record_ids (server w) name
  ∨ name = QdrantStorage.collection self
    ∧ record_ids (server (world (QdrantStorage.upsert ext self ids vectors payloads w))) name
      = record_ids (server w) name ∪ list_to_set ids.
Proof.
  rewrite storage_upsert_run. destruct (mapM _ _) as [pts|] eqn:Hpts; [|by left].
  destruct (client_upsert_server ext (QdrantStorage.client self)
              (QdrantStorage.collection self) pts w) as [->|(c & Hc & _ & ->)]; [by left|].
  destruct (decide (name = QdrantStorage.collection self)) as [->|Hne].
  - right. split; [done|].
    by rewrite (record_ids_upsert _ _ _ _ _ Hc), (build_points_ids _ _ _ _ Hpts).
  - left. unfold record_ids. by rewrite lookup_insert_ne.
Qed.

(** X5.  [QdrantStorage.upsert] never deletes: an id stored in any
    collection before the call is stored in it after the call, whether the
    call returned or raised. *)
Theorem upsert_never_deletes self ids vectors payloads w name id :
  id ∈ record_ids (server w) name →
  id ∈ record_ids (server (world (QdrantStorage.upsert ext self ids vectors payloads w))) name.
Proof.
  intros Hid. destruct (storage_upsert_ids_any self ids vectors payloads w name)
    as [->|[_ ->]]; [done|]. apply elem_of_union. by left.
Qed.

(** X6.  Ingesting a shorter version of a source on top of a longer one
    replaces nothing but the first records: the ids of the collection are
    those of the first upsert, so the records of the chunks the new version
    no longer has stay in the store. *)
Theorem shorter_reingestion_keeps_stale_ids self source_id long short v1 p1 v2 p2 w :
  (length short ≤ length long)%nat →
  result (QdrantStorage.upsert ext self (upsert_ids source_id long) v1 p1 w) = Ok () →
  let col := QdrantStorage.collection self in
  let w1 := world (QdrantStorage.upsert ext self (upsert_ids source_id long) v1 p1 w) in
  let w2 := world (QdrantStorage.upsert ext self (upsert_ids source_id short) v2 p2 w1) in
  record_ids (server w2) col = record_ids (server w1) col
  ∧ ∀ i, (i < length long)%nat → derive_id source_id i ∈ record_ids (server w2) col.
Proof.
  intros Hle Hok col w1 w2.
  pose proof (storage_upsert_ids_Ok _ _ _ _ _ Hok) as H1. fold col w1 in H1.
  assert (Hsub : (list_to_set (upsert_ids source_id short) : gset string)
                 ⊆ record_ids (server w1) col).
  { rewrite H1. intros id Hid. apply elem_of_union. right.
    apply elem_of_list_to_set. apply elem_of_list_to_set in Hid.
    rewrite (upsert_ids_prefix source_id short long Hle) in Hid.
    apply elem_of_take in Hid as (i & Hi & _). apply list_elem_of_lookup. eauto. }
  assert (H2 : record_ids (server w2) col = record_ids (server w1) col).
  { subst w2. destruct (storage_upsert_ids_any self (upsert_ids source_id short) v2 p2 w1 col)
      as [->|[_ ->]]; [done|].
    rewrite (comm_L (∪)). by apply subseteq_union_1_L. }
  split; [done|]. intros i Hi. rewrite H2, H1. apply elem_of_union. right.
  apply elem_of_list_to_set, list_elem_of_lookup. exists i. by apply upsert_ids_lookup.
Qed.

End storage.

(** ** Ids of different chunks *)

Lemma pretty_N_char_digit x : pretty_N_char x ∈ digits.
Proof.
  unfold pretty_N_char, digits.
  repeat case_match; repeat (rewrite elem_of_cons); tauto.
Qed.

Lemma pretty_N_go_digits x s :
  Forall (λ c, c ∈ digits) (list_ascii_of_string s) →
  Forall (λ c, c ∈ digits) (list_ascii_of_string (pretty_N_go x s)).
Proof.
  revert s. induction (N.lt_wf_0 x) as [x _ IH]; intros s Hs.
  destruct (decide (x = 0)%N) as [->|Hx]; [by rewrite pretty_N_go_0|].
  rewrite pretty_N_go_step by lia. apply IH; [apply N.div_lt; lia|].
  simpl. constructor; [apply pretty_N_char_digit | done].
Qed.

Lemma pretty_nat_digits (n : nat) :
  Forall (λ c, c ∈ digits) (list_ascii_of_string (pretty n)).
Proof.
  unfold pretty, pretty_nat, pretty, pretty_N.
  destruct (decide _); [|by apply pretty_N_go_digits].
  simpl. constructor; [|done]. unfold digits. apply elem_of_cons. by left.
Qed.

Lemma colon_not_digit : ":"%char ∉ digits.
Proof. unfold digits. repeat (rewrite not_elem_of_cons). repeat split; try done. apply not_elem_of_nil. Qed.

Lemma split_at_last_colon (l1 l2 d1 d2 : list ascii) :
  ":"%char ∉ d1 → ":"%char ∉ d2 →
  l1 ++ ":"%char :: d1 = l2 ++ ":"%char :: d2 → l1 = l2 ∧ d1 = d2.
Proof.
  intros H1 H2. revert l2. induction l1 as [|a l1 IH]; intros [|b l2] H; simpl in H.
  - by injection H.
  - injection H as <- ->. exfalso. apply H1, elem_of_app. right. by left.
  - injection H as -> <-. exfalso. apply H2, elem_of_app. right. by left.
  - injection H as -> H. by destruct (IH _ H) as [-> ->].
Qed.

Lemma id_name_pair_inj s1 i s2 j : id_name s1 i = id_name s2 j → s1 = s2 ∧ i = j.
Proof.
  unfold id_name. intros H. apply (f_equal list_ascii_of_string) in H.
  rewrite !list_ascii_of_string_app in H. simpl in H.
  assert (Hd : ∀ n : nat, ":"%char ∉ list_ascii_of_string (pretty n)).
  { intros n Hn. pose proof (pretty_nat_digits n) as Hall.
    rewrite Forall_forall in Hall. by apply colon_not_digit, Hall. }
  apply split_at_last_colon in H as [Hs Hp]; [|apply Hd..]. split.
  - by rewrite <- (string_of_list_ascii_of_string s1), Hs, string_of_list_ascii_of_string.
  - apply (inj pretty).
    by rewrite <- (string_of_list_ascii_of_string (pretty i)), Hp,
      string_of_list_ascii_of_string.
Qed.

(** X8.  Different (source, index) pairs give different names to
    [uuid5], also for the chunks of one source and for sources that contain
    a colon; the derived ids differ unless [uuid5] maps the two names to the
    same UUID. *)
Theorem derive_id_distinct_pairs s1 i s2 j :
  (s1, i) ≠ (s2, j) →
  id_name s1 i ≠ id_name s2 j
  ∧ (derive_id s1 i ≠ derive_id s2 j
     ∨ uuid.uuid5 uuid.NAMESPACE_URL (id_name s1 i)
       = uuid.uuid5 uuid.NAMESPACE_URL (id_name s2 j)).
Proof.
  intros Hne. split.
  - intros [-> ->]%id_name_pair_inj. by apply Hne.
  - destruct (decide (derive_id s1 i = derive_id s2 j)) as [Heq|]; [right | by left].
    apply str_inj; [apply uuid5_range.. | exact Heq].
Qed.

(** *** The shape of an id *)

Lemma hexdigit_hex d : 0 ≤ d < 16 → uuid.hexdigit d ∈ hex_digits.
Proof.
  intros Hd.
  assert (E : d ∈ [0;1;2;3;4;5;6;7;8;9;10;11;12;13;14;15]).
  { repeat (rewrite elem_of_cons). lia. }
  repeat (apply elem_of_cons in E as [->|E]); [..|by apply elem_of_nil in E];
    by apply (bool_decide_unpack _).
Qed.

Lemma hex32_lookup u k :
  (k < 32)%nat → uuid.hex32 u !! k = Some (uuid.hexdigit (nibble u k)).
Proof.
  intros Hk. unfold uuid.hex32. change (map ?f ?l) with (f <$> l).
  by rewrite list_lookup_fmap, lookup_seq_lt.
Qed.

Lemma nibble_range u k : 0 ≤ nibble u k < 16.
Proof. apply Z.mod_pos_bound. lia. Qed.

Lemma UUID_version bs : nibble (uuid.UUID bs 5) 12 = 5.
Proof.
  unfold nibble, uuid.UUID. change (4 * Z.of_nat (31 - 12)) with 76. change 16 with (2 ^ 4).
  apply Z.bits_inj'. intros n Hn.
  destruct (decide (n < 4)) as [Hlt|Hge].
  - rewrite Z.mod_pow2_bits_low by lia. rewrite Z.shiftr_spec by lia.
    rewrite Z.lor_spec, Z.land_spec, Z.lnot_spec by lia.
    rewrite !Z.shiftl_spec by lia.
    assert (E : n = 0 ∨ n = 1 ∨ n = 2 ∨ n = 3) by lia.
    destruct E as [-> | [-> | [-> | ->]]]; simpl; by rewrite andb_false_r.
  - rewrite Z.mod_pow2_bits_high by lia. symmetry.
    apply Z.bits_above_log2; [lia|]. change (Z.log2 5) with 2. lia.
Qed.

Lemma UUID_variant bs version : nibble (uuid.UUID bs version) 16 ∈ [8; 9; 10; 11].
Proof.
  pose proof (nibble_range (uuid.UUID bs version) 16) as Hr.
  assert (H3 : Z.testbit (nibble (uuid.UUID bs version) 16) 3 = true).
  { unfold nibble, uuid.UUID. change (4 * Z.of_nat (31 - 16)) with 60. change 16 with (2 ^ 4).
    rewrite Z.mod_pow2_bits_low by lia. rewrite Z.shiftr_spec by lia.
    rewrite Z.lor_spec, Z.land_spec, Z.lor_spec, Z.land_spec, !Z.lnot_spec by lia.
    rewrite !Z.shiftl_spec by lia. simpl. by rewrite andb_false_r. }
  assert (H2 : Z.testbit (nibble (uuid.UUID bs version) 16) 2 = false).
  { unfold nibble, uuid.UUID. change (4 * Z.of_nat (31 - 16)) with 60. change 16 with (2 ^ 4).
    rewrite Z.mod_pow2_bits_low by lia. rewrite Z.shiftr_spec by lia.
    rewrite Z.lor_spec, Z.land_spec, Z.lor_spec, Z.land_spec, !Z.lnot_spec by lia.
    rewrite !Z.shiftl_spec by lia. simpl. by rewrite andb_false_r. }
  revert H3 H2. generalize dependent (nibble (uuid.UUID bs version) 16). intros x Hx.
  assert (E : x ∈ [0;1;2;3;4;5;6;7;8;9;10;11;12;13;14;15]).
  { repeat (rewrite elem_of_cons). lia. }
  repeat (apply elem_of_cons in E as [->|E]); [..|by apply elem_of_nil in E];
    simpl; intros; try discriminate; repeat (rewrite elem_of_cons); tauto.
Qed.

Lemma hexdigit_variant x :
  x ∈ [8; 9; 10; 11] → uuid.hexdigit x ∈ ["8"; "9"; "a"; "b"]%char.
Proof.
  intros E. repeat (apply elem_of_cons in E as [->|E]); [..|by apply elem_of_nil in E];
    by apply (bool_decide_unpack _).
Qed.

(** X9.  Every derived id is the canonical text of a version-5 UUID: 36
    characters in groups of 8-4-4-4-12 lower-case hexadecimal digits, with
    the version digit [5] and a variant digit among [8], [9], [a], [b]. *)
Theorem derive_id_is_uuid5 source_id i : uuid5_text (derive_id source_id i).
Proof.
  unfold derive_id, uuid.uuid5.
  set (u := uuid.UUID _ 5).
  assert (H12 : uuid.hex32 u !! 12%nat = Some "5"%char).
  { rewrite hex32_lookup by lia. subst u. by rewrite UUID_version. }
  assert (H16 : ∃ v, uuid.hex32 u !! 16%nat = Some v ∧ v ∈ ["8"; "9"; "a"; "b"]%char).
  { rewrite hex32_lookup by lia. eexists. split; [done|].
    subst u. apply hexdigit_variant, UUID_variant. }
  assert (Hall : Forall (λ x, x ∈ hex_digits) (uuid.hex32 u)).
  { apply Forall_forall. intros x (k & Hk)%list_elem_of_lookup.
    pose proof (lookup_lt_Some _ _ _ Hk) as Hlt. rewrite hex32_length in Hlt.
    rewrite hex32_lookup in Hk by done. injection Hk as <-.
    apply hexdigit_hex, nibble_range. }
  unfold uuid5_text, uuid.str. rewrite list_ascii_of_string_of_list_ascii.
  pose proof (hex32_length u) as Hlen.
  destruct H16 as (v & H16 & Hv).
  revert H12 H16 Hall Hlen. generalize (uuid.hex32 u). intros h H12 H16 Hall Hlen.
  do 32 (destruct h as [|? h]; [discriminate Hlen|]).
  destruct h; [|discriminate Hlen].
  simpl in H12, H16. injection H12 as ->. injection H16 as ->.
  repeat (apply Forall_cons in Hall as [? Hall]).
  eexists [_;_;_;_;_;_;_;_], [_;_;_;_], [_;_;_], [_;_;_], [_;_;_;_;_;_;_;_;_;_;_;_], v.
  split; [reflexivity|]. repeat (split; [done|]).
  simpl. repeat (constructor; [assumption|]). constructor.
Qed.

(** ** More on [data_loader.py] *)

Lemma mapM_answer {A B} (g : A → Outcome B) (l : list A) w :
  mapM (M:=M) (λ x, answer (g x)) l w = (traverse g l, w).
Proof.
  induction l as [|x l IH]; [done|].
  cbn [mapM traverse]. rewrite bind_run. unfold answer at 1. destruct (g x); [|done].
  rewrite bind_run, IH. by destruct (traverse g l).
Qed.

Lemma traverse_Ok {A B} (g : A → Outcome B) l ys :
  traverse g l = Ok ys ↔ Forall2 (λ x y, g x = Ok y) l ys.
Proof.
  revert ys. induction l as [|x l IH]; intros ys; simpl.
  - split; [intros [= <-]; constructor | by inversion 1].
  - destruct (g x) as [y|e] eqn:Hx.
    + destruct (traverse g l) as [zs|e] eqn:Hl.
      * split.
        -- intros [= <-]. constructor; [done | by apply IH].
        -- inversion 1 as [|? y' ? zs' Hy Hzs]; subst. rewrite Hx in Hy. injection Hy as <-.
           apply IH in Hzs. by injection Hzs as <-.
      * split; [done|]. inversion 1 as [|? y' ? zs' Hy Hzs]; subst.
        apply IH in Hzs. done.
    + split; [done|]. inversion 1 as [|? y' ? zs' Hy Hzs]; subst. by rewrite Hx in Hy.
Qed.

Lemma traverse_first_failure {A B} (g : A → Outcome B) pre x post ys e :
  Forall2 (λ x y, g x = Ok y) pre ys → g x = Raise e →
  traverse g (pre ++ x :: post) = Raise e.
Proof.
  intros Hpre Hx. induction Hpre as [|a y pre ys Ha _ IH]; simpl.
  - by rewrite Hx.
  - by rewrite Ha, IH.
Qed.

Lemma textful_elem docs t :
  t ∈ textful docs ↔ ∃ d, d ∈ docs ∧ doc_text d = Some t ∧ t ≠ "".
Proof.
  unfold textful. rewrite list_elem_of_omap. split.
  - intros (d & Hd & Ht). exists d. split; [done|]. destruct (doc_text d) as [t'|]; [|done].
    simpl in Ht. destruct (String.eqb_spec t' ""); simpl in Ht; [done|].
    injection Ht as ->. done.
  - intros (d & Hd & Ht & Hne). exists d. split; [done|]. rewrite Ht. simpl.
    destruct (String.eqb_spec t ""); done.
Qed.

Lemma elem_of_concat {A} (x : A) (ls : list (list A)) :
  x ∈ concat ls ↔ ∃ l, x ∈ l ∧ l ∈ ls.
Proof.
  induction ls as [|l ls IH]; simpl.
  - split; [by intros ?%elem_of_nil | by intros (? & _ & ?%elem_of_nil)].
  - rewrite elem_of_app, IH. split.
    + intros [H|(l' & ? & ?)]; [exists l | exists l']; split; try done;
        apply elem_of_cons; auto.
    + intros (l' & Hx & [->|Hl]%elem_of_cons); [by left | right; eauto].
Qed.

Section loader.
Context (ext : Externals).

Lemma load_and_chunk_pdf_run path w :
  load_and_chunk_pdf ext path w
  = (match load_data ext path with
     | Ok docs =>
         match traverse (split_texts ext) (textful docs) with
         | Ok parts => Ok (concat parts)
         | Raise e => Raise e
         end
     | Raise e => Raise e
     end, w).
Proof.
  unfold load_and_chunk_pdf. rewrite bind_run. unfold answer at 1.
  destruct (load_data ext path) as [docs|e]; [|done].
  rewrite bind_run. fold (textful docs). rewrite mapM_answer.
  by destruct (traverse _ _).
Qed.

(** X10.  When the reader returns [docs] and the splitter splits each kept
    text, [load_and_chunk_pdf] returns the chunks of the kept texts
    concatenated in document order, and changes nothing.  The kept texts are
    those of the documents with a non-empty text; every chunk returned is a
    chunk of one of them. *)
Theorem load_and_chunk_pdf_chunks path w docs parts :
  load_data ext path = Ok docs →
  Forall2 (λ t ps, split_texts ext t = Ok ps) (textful docs) parts →
  load_and_chunk_pdf ext path w = (Ok (concat parts), w)
  ∧ (∀ t, t ∈ textful docs ↔ ∃ d, d ∈ docs ∧ doc_text d = Some t ∧ t ≠ "")
  ∧ (∀ chunk, chunk ∈ concat parts ↔
       ∃ t ps, t ∈ textful docs ∧ split_texts ext t = Ok ps ∧ chunk ∈ ps).
Proof.
  intros Hd Hs. split; [|split].
  - rewrite load_and_chunk_pdf_run, Hd. by rewrite (proj2 (traverse_Ok _ _ _) Hs).
  - apply textful_elem.
  - intros chunk. rewrite elem_of_concat. split.
    + intros (ps & Hc & Hps). apply list_elem_of_lookup in Hps as [i Hi].
      destruct (Forall2_lookup_r _ _ _ _ _ Hs Hi) as (t & Ht & Hsplit).
      exists t, ps. split; [|done]. apply list_elem_of_lookup. eauto.
    + intros (t & ps & Ht & Hsplit & Hc). apply list_elem_of_lookup in Ht as [i Hi].
      destruct (Forall2_lookup_l _ _ _ _ _ Hs Hi) as (ps' & Hps' & Hsplit').
      rewrite Hsplit in Hsplit'. injection Hsplit' as <-.
      exists ps. split; [done|]. apply list_elem_of_lookup. eauto.
Qed.

(** X11.  [load_and_chunk_pdf] raises what the reader raises, or what the
    splitter raises on the first text it cannot split; no partial chunk list
    is returned. *)
Theorem load_and_chunk_pdf_failure path w e :
  (load_data ext path = Raise e
   ∨ ∃ docs pre t post parts,
       load_data ext path = Ok docs
       ∧ textful docs = pre ++ t :: post
       ∧ Forall2 (λ t ps, split_texts ext t = Ok ps) pre parts
       ∧ split_texts ext t = Raise e) →
  load_and_chunk_pdf ext path w = (Raise e, w).
Proof.
  intros [Hd|(docs & pre & t & post & parts & Hd & Ht & Hpre & Hsplit)];
    rewrite load_and_chunk_pdf_run, Hd; [done|].
  by rewrite Ht, (traverse_first_failure _ _ _ _ _ _ Hpre Hsplit).
Qed.
End loader.

(** ** More on [main.py] *)

Section more_pipelines.
Context (ext : Externals).

Lemma _load_run event w :
  _load ext event w
  = (match result (load_and_chunk_pdf ext (pdf_path event) w) with
     | Ok chunks =>
         Ok {| RAGChunkAndSrc.chunks := chunks;
               RAGChunkAndSrc.source_id := default (pdf_path event) (event_source_id event) |}
     | Raise e => Raise e
     end, w).
Proof.
  unfold _load. rewrite bind_run.
  pose proof (load_and_chunk_pdf_world ext (pdf_path event) w) as Hw.
  destruct (load_and_chunk_pdf _ _ _) as [[cs|e] w']; simpl in *; by subst.
Qed.

(** X12.  When loading the PDF raises, [rag_ingest_pdf] raises the same
    exception and the second step never runs: no embedder call, no store
    call. *)
Theorem rag_ingest_pdf_unreadable event w e :
  result (load_and_chunk_pdf ext (pdf_path event) w) = Raise e →
  rag_ingest_pdf ext event w = (Raise e, w).
Proof.
  intros He. unfold rag_ingest_pdf. rewrite bind_run, _load_run. by rewrite He.
Qed.

(** X13.  As written, [rag_ingest_pdf] never returns and never changes the
    server, for any event: either loading raises, with no call recorded, or
    the only call recorded is the one embedder call with the chunks. *)
Theorem rag_ingest_pdf_never_stores event w :
  (∃ e, result (rag_ingest_pdf ext event w) = Raise e)
  ∧ server (world (rag_ingest_pdf ext event w)) = server w
  ∧ match result (load_and_chunk_pdf ext (pdf_path event) w) with
    | Ok chunks =>
        calls (world (rag_ingest_pdf ext event w))
        = calls w ++ [EmbeddingsCreate EMBED_MODEL chunks]
    | Raise _ => calls (world (rag_ingest_pdf ext event w)) = calls w
    end.
Proof.
  split; [|split; [apply rag_ingest_pdf_server|]].
  - unfold rag_ingest_pdf. rewrite bind_run, _load_run.
    destruct (result (load_and_chunk_pdf _ _ _)) as [chunks|e]; [|by eexists].
    rewrite bind_run, _upsert_run. simpl.
    destruct (embeddings_response _ _ _ _); by eexists.
  - unfold rag_ingest_pdf. rewrite bind_run, _load_run.
    destruct (result (load_and_chunk_pdf _ _ _)) as [chunks|e]; [|done].
    rewrite bind_run, _upsert_run. simpl.
    by destruct (embeddings_response _ _ _ _).
Qed.

(** X14.  When the embedder fails or returns no vector for the question,
    [_search] raises (the embedder's exception, or [IndexError] from the
    [[0]]) after the one embedder call: no handle is constructed and the store
    is not queried. *)
Theorem search_without_vector question k w :
  (∀ v vs, result (embed_texts ext [question] w) ≠ Ok (v :: vs)) →
  world (_search ext question k w) = log (EmbeddingsCreate EMBED_MODEL [question]) w
  ∧ result (_search ext question k w)
    = match result (embed_texts ext [question] w) with
      | Raise e => Raise e
      | Ok _ => Raise IndexError
      end.
Proof.
  intros Hno. rewrite _search_run.
  destruct (result (embed_texts ext [question] w)) as [[|v vs]|e]; try done.
  by destruct (Hno v vs).
Qed.

(** X15.  [_search] never returns a [RAGSearchResult] and never queries the
    store, for any question and [top_k] and on any server.  When the
    embedder gives a vector, the handle is constructed, which creates the
    collection ["docs"] if it is absent and the server accepts it, and the
    call of [store.search] then raises the [TypeError] of the missing
    [collection_name]; the server's refusal to create the collection is the
    only other exception at that point. *)
Theorem search_never_returns question k w :
  (∃ e, result (_search ext question k w) = Raise e)
  ∧ filter is_search (calls (world (_search ext question k w))) = filter is_search (calls w)
  ∧ (∀ v vs, result (embed_texts ext [question] w) = Ok (v :: vs) →
       world (_search ext question k w) = query_world ext question w
       ∧ (result (_search ext question k w) = Raise missing_collection_name
          ∨ server w !! QdrantStorage.default_collection = None
            ∧ ∃ e, config_refusal ext {| params_size := QdrantStorage.default_dim;
                                         params_distance := COSINE |} = Some e
                   ∧ result (_search ext question k w) = Raise e)).
Proof.
  split; [apply _search_raises | split; [apply _search_calls; simpl; auto|]].
  intros v vs He. rewrite _search_run, He. split; [done|].
  unfold result at 1 3. simpl. rewrite init_run. simpl.
  destruct (server w !! QdrantStorage.default_collection) eqn:Hc; [by left|].
  destruct (config_refusal ext _) as [e|] eqn:Hr; [|by left].
  right. split; [done|]. by exists e.
Qed.
End more_pipelines.

(** ** Running [St] *)

Lemma St_bind_run {S A B} (m : St S A) (f : A → St S B) (s : S) :
  (m ≫= f) s = match m s with (Done a, s') => f a s' | (Failed e, s') => (Failed e, s') end.
Proof. reflexivity. Qed.

(** ** [rag_query_pdf_ai] *)

Section query.
Context (ext : Externals) (a : Assistant).

(** The query up to the retrieval, where it ends. *)
Lemma rag_query_pdf_ai_run event s :
  rag_query_pdf_ai ext a event s
  = match event_question event with
    | None => (Failed (KeyError (JStr "question")), s)
    | Some q =>
        match py_int (default (JInt 5) (event_top_k event)) with
        | Failed e => (Failed e, s)
        | Done k =>
            (match result (_search ext q k (session_world s)) with
             | Raise e => Failed (Py e)
             | Ok _ => Failed (Py missing_collection_name)
             end,
             {| session_world := world (_search ext q k (session_world s));
                inferences := inferences s |})
        end
    end.
Proof.
  unfold rag_query_pdf_ai. rewrite St_bind_run.
  destruct (event_question event) as [q|]; [|done].
  cbv zeta. change (mret (M:=St Session) q s) with (Done q, s). cbv iota. rewrite St_bind_run.
  unfold pure at 1. destruct (py_int _) as [k|e]; [|done].
  rewrite St_bind_run. unfold lift at 1.
  destruct (_search_raises ext q k (session_world s)) as [e He].
  destruct (_search ext q k _) as [[found|e'] w]; [done|]. by simpl.
Qed.

(** X17.  [rag_query_pdf_ai] never returns an answer and never asks the
    model, for any event: every run ends in an exception, with no request to
    the model and none to the store's search. *)
Theorem query_never_answers event s :
  (∃ e, (rag_query_pdf_ai ext a event s).1 = Failed e)
  ∧ inferences (rag_query_pdf_ai ext a event s).2 = inferences s
  ∧ filter is_search (calls (session_world (rag_query_pdf_ai ext a event s).2))
    = filter is_search (calls (session_world s)).
Proof.
  rewrite rag_query_pdf_ai_run. destruct (event_question event) as [q|]; [|by eauto].
  destruct (py_int _) as [k|e]; [|by eauto]. simpl.
  split; [destruct (result _); eauto|]. split; [done|].
  apply _search_calls; simpl; auto.
Qed.

(** X18.  [rag_query_pdf_ai] fails in one of three ways: the event has no
    question ([KeyError], nothing has happened); [int] does not accept what
    the event has under [top_k] ([TypeError], [ValueError] or
    [OverflowError], nothing has happened); or the retrieval raised, with
    the question and [int] of [top_k], 5 when the event has none. *)
Theorem query_failure_cases event s e s' :
  rag_query_pdf_ai ext a event s = (Failed e, s') →
  (event_question event = None ∧ e = KeyError (JStr "question") ∧ s' = s)
  ∨ (∃ q, event_question event = Some q
       ∧ py_int (default (JInt 5) (event_top_k event)) = Failed e ∧ s' = s)
  ∨ (∃ q k e', event_question event = Some q
       ∧ py_int (default (JInt 5) (event_top_k event)) = Done k
       ∧ e = Py e'
       ∧ _search ext q k (session_world s) = (Raise e', session_world s')
       ∧ inferences s' = inferences s).
Proof.
  rewrite rag_query_pdf_ai_run. destruct (event_question event) as [q|].
  2:{ intros [= <- <-]. by left. }
  destruct (py_int _) as [k|e0] eqn:Hk.
  2:{ intros [= <- <-]. right. left. by exists q. }
  destruct (_search_raises ext q k (session_world s)) as [e' He].
  rewrite He. intros [= <- <-]. right. right. exists q, k, e'.
  split; [done|]. split; [done|]. split; [done|]. simpl. split; [|done].
  destruct (_search ext q k _) as [r w]. simpl in He. by subst.
Qed.
End query.

Lemma string_app_cons c (s t : string) : String c s +:+ t = String c (s +:+ t).
Proof. reflexivity. Qed.

Lemma string_app_assoc (s1 s2 s3 : string) : (s1 +:+ s2) +:+ s3 = s1 +:+ s2 +:+ s3.
Proof. induction s1 as [|c s1 IH]; [done|]. by rewrite !string_app_cons, IH. Qed.

Lemma string_app_nil_r (s : string) : s +:+ "" = s.
Proof. induction s as [|c s IH]; [done|]. by rewrite string_app_cons, IH. Qed.

Lemma substring_refl x : substring x x.
Proof. exists "", "". by rewrite string_app_nil_r. Qed.

Lemma substring_app_r x s pre : substring x s → substring x (pre +:+ s).
Proof. intros (p & q & ->). exists (pre +:+ p), q. by rewrite string_app_assoc. Qed.

Lemma substring_app_l x s post : substring x s → substring x (s +:+ post).
Proof. intros (p & q & ->). exists p, (q +:+ post). by rewrite !string_app_assoc. Qed.

Lemma join_contains sep parts p : p ∈ parts → substring p (join sep parts).
Proof.
  induction parts as [|p0 parts IH]; [by intros ?%elem_of_nil|].
  intros [->|Hp]%elem_of_cons; cbn [join].
  - destruct parts; [apply substring_refl | apply substring_app_l, substring_refl].
  - destruct parts as [|p1 parts]; [by apply elem_of_nil in Hp|].
    by apply substring_app_r, substring_app_r, IH.
Qed.

(** X20.  The prompt contains the question and, as a list item, every
    context found. *)
Theorem prompt_contains_contexts contexts question :
  substring question (user_content contexts question)
  ∧ ∀ c, c ∈ contexts → substring ("- " +:+ c) (user_content contexts question).
Proof.
  split.
  - unfold user_content. do 9 apply substring_app_r. apply substring_app_l, substring_refl.
  - intros c Hc. unfold user_content. do 5 apply substring_app_r. apply substring_app_l.
    unfold context_block. apply join_contains.
    change (map ?f ?l) with (f <$> l). apply list_elem_of_fmap. eauto.
Qed.

(** ** Waiting for a run *)

Lemma turns_S d event_id interval i b :
  turns d event_id interval (S i) b
  = turns d event_id interval i
      {| requests := requests b ++ [runs_url d event_id];
         clock_reads := S (clock_reads b);
         sleeps := sleeps b ++ [interval] |}.
Proof.
  unfold turns. simpl. f_equal.
  - by rewrite <- app_assoc.
  - lia.
  - by rewrite <- app_assoc.
Qed.

Lemma turns_0 d event_id interval b : turns d event_id interval 0 b = b.
Proof. unfold turns. simpl. destruct b. simpl. by rewrite !app_nil_r, Nat.add_0_r. Qed.

Lemma turns_1 d event_id interval b :
  turns d event_id interval 1 b
  = {| requests := requests b ++ [runs_url d event_id];
       clock_reads := S (clock_reads b);
       sleeps := sleeps b ++ [interval] |}.
Proof. unfold turns. simpl. f_equal. lia. Qed.

Section waiting.
Context (d : Dashboard) (event_id : string) (timeout_s poll_interval_s start : float).

Lemma poll_goes_on fuel last b :
  goes_on d event_id timeout_s start b →
  ∃ last', poll d (S fuel) event_id timeout_s poll_interval_s start last b
           = poll d fuel event_id timeout_s poll_interval_s start last'
               (turns d event_id poll_interval_s 1 b).
Proof.
  intros (data & Hget & Hrun & Hdue). cbn [poll]. rewrite St_bind_run.
  unfold fetch_runs at 1. rewrite Hget. unfold overdue in Hdue.
  rewrite turns_1.
  destruct (default [] data) as [|run rest].
  - exists last. rewrite St_bind_run. unfold time_time at 1. simpl. by rewrite Hdue.
  - destruct Hrun as [-> ->]. eexists. rewrite St_bind_run. unfold time_time at 1. simpl.
    by rewrite Hdue.
Qed.

Lemma poll_after_turns n fuel last b :
  (∀ i, (i < n)%nat → goes_on d event_id timeout_s start (turns d event_id poll_interval_s i b)) →
  ∃ last', poll d (n + fuel) event_id timeout_s poll_interval_s start last b
           = poll d fuel event_id timeout_s poll_interval_s start last'
               (turns d event_id poll_interval_s n b).
Proof.
  revert last b. induction n as [|n IH]; intros last b Hon.
  - exists last. by rewrite turns_0.
  - destruct (poll_goes_on (n + fuel) last b) as [last1 H1].
    { rewrite <- (turns_0 d event_id poll_interval_s b). apply Hon. lia. }
    change (S n + fuel)%nat with (S (n + fuel)). rewrite H1.
    destruct (IH last1 (turns d event_id poll_interval_s 1 b)) as [last2 H2].
    { intros i Hi. specialize (Hon (S i) ltac:(lia)). rewrite turns_S in Hon.
      by rewrite turns_1. }
    exists last2. by rewrite H2, (turns_S _ _ _ n), turns_1.
Qed.

Lemma poll_stable fuel k last b r b' :
  poll d fuel event_id timeout_s poll_interval_s start last b = (r, b') →
  r ≠ Done None →
  poll d (fuel + k) event_id timeout_s poll_interval_s start last b = (r, b').
Proof.
  revert last b. induction fuel as [|fuel IH]; intros last b.
  - simpl. by intros [= <- <-] ?.
  - cbn [poll Nat.add]. rewrite !St_bind_run.
    destruct (fetch_runs d event_id b) as [[runs|e] b1]; [|done].
    assert (Hc : ∀ last1,
      (now ← time_time d;
       if ltb timeout_s (sub now start)
       then throw (TimeoutError ("Timed out waiting for run output (last status: "
                                +:+ py_str last1 +:+ ")"))
       else time_sleep poll_interval_s;;
            poll d fuel event_id timeout_s poll_interval_s start last1) b1 = (r, b') →
      r ≠ Done None →
      (now ← time_time d;
       if ltb timeout_s (sub now start)
       then throw (TimeoutError ("Timed out waiting for run output (last status: "
                                +:+ py_str last1 +:+ ")"))
       else time_sleep poll_interval_s;;
            poll d (fuel + k) event_id timeout_s poll_interval_s start last1) b1 = (r, b')).
    { intros last1. rewrite !St_bind_run. unfold time_time at 1 2. simpl.
      destruct (ltb timeout_s _); [done|]. rewrite !St_bind_run. unfold time_sleep at 1 2.
      simpl. apply IH. }
    destruct runs as [|run rest]; [apply Hc|].
    destruct (succeeded (run_status run)); [done|].
    destruct (failed (run_status run)); [done|]. apply Hc.
Qed.

Lemma poll_terminates n fuel last b :
  overdue d timeout_s start (turns d event_id poll_interval_s n b) = true →
  (n < fuel)%nat →
  (poll d fuel event_id timeout_s poll_interval_s start last b).1 ≠ Done None.
Proof.
  revert fuel last b. induction n as [|n IH]; intros fuel last b Hdue Hfuel;
    (destruct fuel as [|fuel]; [lia|]); cbn [poll]; rewrite St_bind_run;
    unfold fetch_runs at 1;
    (destruct (http_get d (requests b) (runs_url d event_id)) as [data|e]; [|done]).
  - rewrite turns_0 in Hdue. unfold overdue in Hdue.
    assert (Hc : ∀ last1 b1, clock_reads b1 = clock_reads b →
      ((now ← time_time d;
        if ltb timeout_s (sub now start)
        then throw (TimeoutError ("Timed out waiting for run output (last status: "
                                 +:+ py_str last1 +:+ ")"))
        else time_sleep poll_interval_s;;
             poll d fuel event_id timeout_s poll_interval_s start last1) b1).1 ≠ Done None).
    { intros last1 b1 Hb1. rewrite St_bind_run. unfold time_time at 1. simpl.
      by rewrite Hb1, Hdue. }
    destruct (default [] data) as [|run rest]; [by apply Hc|].
    destruct (succeeded (run_status run)); [done|].
    destruct (failed (run_status run)); [done|]. by apply Hc.
  - rewrite turns_S in Hdue.
    assert (Hc : ∀ last1,
      ((now ← time_time d;
        if ltb timeout_s (sub now start)
        then throw (TimeoutError ("Timed out waiting for run output (last status: "
                                 +:+ py_str last1 +:+ ")"))
        else time_sleep poll_interval_s;;
             poll d fuel event_id timeout_s poll_interval_s start last1)
         {| requests := requests b ++ [runs_url d event_id];
            clock_reads := clock_reads b; sleeps := sleeps b |}).1 ≠ Done None).
    { intros last1. rewrite St_bind_run. unfold time_time at 1. simpl.
      destruct (ltb timeout_s _); [done|]. rewrite St_bind_run. unfold time_sleep at 1. simpl.
      apply IH; [done | lia]. }
    destruct (default [] data) as [|run rest]; [by apply Hc|].
    destruct (succeeded (run_status run)); [done|].
    destruct (failed (run_status run)); [done|]. by apply Hc.
Qed.
End waiting.

Section wait_for_run_output.
Context (d : Dashboard) (event_id : string) (timeout_s poll_interval_s : float).

Lemma wait_run fuel b :
  wait_for_run_output d fuel event_id timeout_s poll_interval_s b
  = poll d fuel event_id timeout_s poll_interval_s (clock d (clock_reads b)) PyNone
      (started b).
Proof. reflexivity. Qed.

(** X21.  If the first [n] polls neither decide nor time out and the next
    poll shows a first run with a success status, [wait_for_run_output]
    returns that run's output (the empty dict when it has none) after
    exactly [n + 1] requests to the runs URL of the event, [n] pauses of
    [poll_interval_s] and [n + 1] readings of the clock. *)
Theorem wait_returns_output b n fuel run rest :
  let start := clock d (clock_reads b) in
  let b_n := turns d event_id poll_interval_s n (started b) in
  (∀ i, (i < n)%nat →
     goes_on d event_id timeout_s start (turns d event_id poll_interval_s i (started b))) →
  http_get d (requests b_n) (runs_url d event_id) = Ok (Some (run :: rest)) →
  succeeded (run_status run) = true →
  (n < fuel)%nat →
  wait_for_run_output d fuel event_id timeout_s poll_interval_s b
  = (Done (Some (output_of run)),
     {| requests := requests b ++ replicate (S n) (runs_url d event_id);
        clock_reads := S (clock_reads b + n);
        sleeps := sleeps b ++ replicate n poll_interval_s |}).
Proof.
  intros start b_n Hon Hget Hok Hfuel. rewrite wait_run. fold start.
  replace fuel with (n + S (fuel - S n))%nat by lia.
  destruct (poll_after_turns d event_id timeout_s poll_interval_s start n
              (S (fuel - S n)) PyNone (started b) Hon) as [last ->].
  fold b_n. cbn [poll]. rewrite St_bind_run. unfold fetch_runs at 1. rewrite Hget. simpl.
  rewrite Hok. subst b_n. unfold turns, started. simpl. do 2 f_equal.
  rewrite <- app_assoc. f_equal. by rewrite replicate_cons_app.
Qed.

(** X22.  If the first [n] polls neither decide nor time out and the next
    poll shows a first run with status Failed or Cancelled,
    [wait_for_run_output] raises [RuntimeError] naming the status. *)
Theorem wait_raises_on_failed_run b n fuel run rest :
  let start := clock d (clock_reads b) in
  let b_n := turns d event_id poll_interval_s n (started b) in
  (∀ i, (i < n)%nat →
     goes_on d event_id timeout_s start (turns d event_id poll_interval_s i (started b))) →
  http_get d (requests b_n) (runs_url d event_id) = Ok (Some (run :: rest)) →
  failed (run_status run) = true →
  (n < fuel)%nat →
  (wait_for_run_output d fuel event_id timeout_s poll_interval_s b).1
  = Failed (RuntimeError ("Function run " +:+ py_str (run_status run))).
Proof.
  intros start b_n Hon Hget Hfail Hfuel. rewrite wait_run. fold start.
  replace fuel with (n + S (fuel - S n))%nat by lia.
  destruct (poll_after_turns d event_id timeout_s poll_interval_s start n
              (S (fuel - S n)) PyNone (started b) Hon) as [last ->].
  fold b_n. cbn [poll]. rewrite St_bind_run. unfold fetch_runs at 1. rewrite Hget. simpl.
  rewrite Hfail.
  assert (Hs : succeeded (run_status run) = false).
  { unfold failed, succeeded in *. apply bool_decide_eq_true in Hfail.
    apply bool_decide_eq_false. intros Hin.
    repeat (apply elem_of_cons in Hfail as [Hfail|Hfail]);
      try (by apply elem_of_nil in Hfail); rewrite Hfail in Hin;
      repeat (apply elem_of_cons in Hin as [Hin|Hin]); try discriminate;
      by apply elem_of_nil in Hin. }
  by rewrite Hs.
Qed.

(** X23.  [wait_for_run_output] stops once the clock shows the timeout
    exceeded: if the reading after [n] polls is later than [timeout_s] after
    the start, the loop has ended by its [n + 1]-th turn with a result or an
    exception, whatever number of further turns it is allowed. *)
Theorem wait_terminates b n :
  overdue d timeout_s (clock d (clock_reads b))
    (turns d event_id poll_interval_s n (started b)) = true →
  ∃ r b', r ≠ Done None
          ∧ ∀ fuel, (n < fuel)%nat →
              wait_for_run_output d fuel event_id timeout_s poll_interval_s b = (r, b').
Proof.
  intros Hdue.
  destruct (wait_for_run_output d (S n) event_id timeout_s poll_interval_s b)
    as [r b'] eqn:Hrun.
  assert (Hr : r ≠ Done None).
  { pose proof (poll_terminates d event_id timeout_s poll_interval_s _ n (S n) PyNone
                  (started b) Hdue ltac:(lia)) as H.
    rewrite wait_run in Hrun. by rewrite Hrun in H. }
  exists r, b'. split; [done|]. intros fuel Hfuel.
  replace fuel with (S n + (fuel - S n))%nat by lia.
  rewrite wait_run in *. by apply poll_stable.
Qed.
End wait_for_run_output.

(** ** [str.strip] and [str.join] at concrete inputs *)

(** [str.strip] and [str.join] on texts for which Python's answers are known. *)
Example strip_unicode_spaces :
  strip (decode [32; 194; 160; 104; 105; 227; 128; 128; 10]) = "hi".
Proof. evaluate. Qed.

Example strip_only_spaces : strip (decode [226; 128; 131; 226; 128; 131]) = "".
Proof. evaluate. Qed.

Example strip_next_line : strip (decode [97; 194; 133]) = "a".
Proof. evaluate. Qed.

Example strip_keeps_inner_space : strip (decode [28; 98; 32; 99; 31; 32]) = "b c".
Proof. evaluate. Qed.

Example strip_keeps_letters :
  strip (decode [32; 32; 67; 97; 195; 177; 195; 179; 110; 32; 226; 128; 168])
  = decode [67; 97; 195; 177; 195; 179; 110].
Proof. evaluate. Qed.

Example strip_after_two_bytes : strip (decode [195; 169; 32]) = decode [195; 169].
Proof. evaluate. Qed.

Example strip_mixed :
  strip (decode [32; 194; 160; 9; 225; 154; 128; 101; 110; 100; 226; 129; 159; 226; 128; 175])
  = "end".
Proof. evaluate. Qed.

Example strip_nothing : strip "" = "" ∧ strip "x" = "x".
Proof. split; evaluate. Qed.

Example join_examples : join ", " ["a"; "b"; "c"] = "a, b, c" ∧ join ", " ["a"] = "a".
Proof. split; reflexivity. Qed.


(** ** The further properties at concrete inputs *)

Lemma upsert_short_lists_raise_witness :
  (length [Stub.vector] < length [Fake.id1; Fake.id2]
   ∨ length Fake.payloads < length [Fake.id1; Fake.id2])%nat
  ∧ QdrantStorage.upsert Fake.ext Fake.storage [Fake.id1; Fake.id2] [Stub.vector]
      Fake.payloads Fake.world
    = (Raise IndexError, Fake.world).
Proof.
  split; [left; simpl; lia|].
  apply (upsert_short_lists_raise Fake.ext Fake.storage [Fake.id1; Fake.id2] [Stub.vector]
           Fake.payloads Fake.world).
  left; simpl; lia.
Defined.

Lemma upsert_sends_triples_witness :
  ((length [Fake.id1; Fake.id2] ≤ length [Stub.vector; Stub.vector; Stub.vector])%nat
   ∧ (length [Fake.id1; Fake.id2] ≤ length Fake.payloads)%nat)
  ∧ ∃ pts,
      calls (world (QdrantStorage.upsert Fake.ext Fake.storage [Fake.id1; Fake.id2]
                      [Stub.vector; Stub.vector; Stub.vector] Fake.payloads Fake.world))
      = calls Fake.world ++ [Upsert (QdrantStorage.collection Fake.storage) pts]
      ∧ length pts = length [Fake.id1; Fake.id2]
      ∧ ∀ i id, [Fake.id1; Fake.id2] !! i = Some id →
          ∃ v p, [Stub.vector; Stub.vector; Stub.vector] !! i = Some v
                 ∧ Fake.payloads !! i = Some p
                 ∧ pts !! i
                   = Some {| point_id := id; point_vector := v; point_payload := p |}.
Proof.
  split; [split; simpl; lia|].
  apply (upsert_sends_triples Fake.ext Fake.storage [Fake.id1; Fake.id2]
           [Stub.vector; Stub.vector; Stub.vector] Fake.payloads Fake.world); simpl; lia.
Defined.


(** The two records of the document next to the three the collection held;
    an id that is not a UUID is refused and nothing is written. *)
Example upsert_then_five_records :
  record_count
    (server (world (QdrantStorage.upsert Fake.ext Fake.storage
                      (upsert_ids "doc1" ["alpha"; "beta"]) Fake.vecs1 Fake.payloads
                      Fake.world))) "docs" = 5%nat.
Proof. evaluate. Qed.

Example upsert_refused_id :
  QdrantStorage.upsert Fake.ext Fake.storage ["p1"; Fake.id1] Fake.vecs1 Fake.payloads
    Fake.world
  = (Raise (UnexpectedResponse 400),
     log (Upsert "docs"
            [ {| point_id := "p1"; point_vector := [1%float; 0%float];
                 point_payload := {[ "source" := JStr "doc1"; "text" := JStr "alpha" ]} |};
              {| point_id := Fake.id1; point_vector := [1%float; 0%float];
                 point_payload := {[ "source" := JStr "doc1"; "text" := JStr "beta" ]} |} ])
       Fake.world).
Proof. evaluate. Qed.

Lemma upsert_ids_by_position_witness :
  (length ["only"] ≤ length ["alpha"; "beta"])%nat
  ∧ (upsert_ids "doc1" ["only"] = take (length ["only"]) (upsert_ids "doc1" ["alpha"; "beta"])
     ∧ (length ["only"] = length ["alpha"; "beta"] →
        upsert_ids "doc1" ["only"] = upsert_ids "doc1" ["alpha"; "beta"])
     ∧ (∀ i, (i < length ["only"])%nat →
          upsert_ids "doc1" ["only"] !! i = Some (derive_id "doc1" i))).
Proof.
  split; [simpl; lia|].
  apply (upsert_ids_by_position "doc1" ["only"] ["alpha"; "beta"]). simpl; lia.
Defined.

Lemma upsert_never_deletes_witness :
  Fake.id3 ∈ record_ids (server Fake.world) "docs"
  ∧ Fake.id3 ∈ record_ids
                 (server (world (QdrantStorage.upsert Fake.ext Fake.storage [Fake.id1]
                                   Fake.vecs1 Fake.payloads Fake.world))) "docs".
Proof.
  assert (H : Fake.id3 ∈ record_ids (server Fake.world) "docs")
    by (apply (bool_decide_unpack _); evaluate).
  split; [exact H|].
  exact (upsert_never_deletes Fake.ext Fake.storage [Fake.id1] Fake.vecs1 Fake.payloads
           Fake.world "docs" Fake.id3 H).
Defined.

Lemma shorter_reingestion_keeps_stale_ids_witness :
  ((length ["only"] ≤ length ["alpha"; "beta"])%nat
   ∧ result (QdrantStorage.upsert Fake.ext Fake.storage
               (upsert_ids "doc1" ["alpha"; "beta"]) Fake.vecs1 Fake.payloads Fake.world)
     = Ok ())
  ∧ (let col := QdrantStorage.collection Fake.storage in
     let w1 := world (QdrantStorage.upsert Fake.ext Fake.storage
                        (upsert_ids "doc1" ["alpha"; "beta"]) Fake.vecs1 Fake.payloads
                        Fake.world) in
     let w2 := world (QdrantStorage.upsert Fake.ext Fake.storage
                        (upsert_ids "doc1" ["only"]) Fake.vecs2 Fake.payloads w1) in
     record_ids (server w2) col = record_ids (server w1) col
     ∧ ∀ i, (i < length ["alpha"; "beta"])%nat →
         derive_id "doc1" i ∈ record_ids (server w2) col).
Proof.
  split; [split; [simpl; lia | evaluate]|].
  apply (shorter_reingestion_keeps_stale_ids Fake.ext Fake.storage "doc1" ["alpha"; "beta"]
           ["only"] Fake.vecs1 Fake.payloads Fake.vecs2 Fake.payloads Fake.world);
    [simpl; lia | evaluate].
Defined.

Lemma derive_id_distinct_pairs_witness :
  ("doc1", 0%nat) ≠ ("doc1", 1%nat)
  ∧ (id_name "doc1" 0 ≠ id_name "doc1" 1
     ∧ (derive_id "doc1" 0 ≠ derive_id "doc1" 1
        ∨ uuid.uuid5 uuid.NAMESPACE_URL (id_name "doc1" 0)
          = uuid.uuid5 uuid.NAMESPACE_URL (id_name "doc1" 1))).
Proof. split; [done | by apply (derive_id_distinct_pairs "doc1" 0 "doc1" 1)]. Defined.

Lemma load_and_chunk_pdf_chunks_witness :
  (load_data Stub.ext "two.pdf" = Ok Stub.docs
   ∧ Forall2 (λ t ps, split_texts Stub.ext t = Ok ps) (textful Stub.docs)
       [["alpha (1)"; "alpha (2)"]; ["beta (1)"; "beta (2)"]])
  ∧ (load_and_chunk_pdf Stub.ext "two.pdf" Fake.empty_world
     = (Ok (concat [["alpha (1)"; "alpha (2)"]; ["beta (1)"; "beta (2)"]]), Fake.empty_world)
     ∧ (∀ t, t ∈ textful Stub.docs ↔ ∃ d, d ∈ Stub.docs ∧ doc_text d = Some t ∧ t ≠ "")
     ∧ (∀ chunk, chunk ∈ concat [["alpha (1)"; "alpha (2)"]; ["beta (1)"; "beta (2)"]] ↔
          ∃ t ps, t ∈ textful Stub.docs ∧ split_texts Stub.ext t = Ok ps ∧ chunk ∈ ps)).
Proof.
  assert (H : Forall2 (λ t ps, split_texts Stub.ext t = Ok ps) (textful Stub.docs)
                [["alpha (1)"; "alpha (2)"]; ["beta (1)"; "beta (2)"]])
    by (repeat constructor).
  split; [split; [reflexivity | exact H]|].
  exact (load_and_chunk_pdf_chunks Stub.ext "two.pdf" Fake.empty_world Stub.docs _
           eq_refl H).
Defined.

Lemma load_and_chunk_pdf_failure_witness :
  (load_data Stub.ext "missing.pdf" = Raise (ServiceError "no such file")
   ∨ ∃ docs pre t post parts,
       load_data Stub.ext "missing.pdf" = Ok docs
       ∧ textful docs = pre ++ t :: post
       ∧ Forall2 (λ t ps, split_texts Stub.ext t = Ok ps) pre parts
       ∧ split_texts Stub.ext t = Raise (ServiceError "no such file"))
  ∧ load_and_chunk_pdf Stub.ext "missing.pdf" Fake.empty_world
    = (Raise (ServiceError "no such file"), Fake.empty_world).
Proof.
  split; [left; reflexivity|].
  apply (load_and_chunk_pdf_failure Stub.ext "missing.pdf" Fake.empty_world).
  left; reflexivity.
Defined.

Example load_and_chunk_pdf_rejected_text :
  load_and_chunk_pdf Stub.ext "bad.pdf" Fake.empty_world
  = (Raise (ServiceError "cannot split"), Fake.empty_world).
Proof. evaluate. Qed.

Lemma rag_ingest_pdf_unreadable_witness :
  result (load_and_chunk_pdf Stub.ext (pdf_path (Stub.event "missing.pdf")) Fake.world)
  = Raise (ServiceError "no such file")
  ∧ rag_ingest_pdf Stub.ext (Stub.event "missing.pdf") Fake.world
    = (Raise (ServiceError "no such file"), Fake.world).
Proof.
  split; [evaluate|].
  apply (rag_ingest_pdf_unreadable Stub.ext (Stub.event "missing.pdf") Fake.world).
  evaluate.
Defined.

Lemma search_without_vector_witness :
  (∀ v vs, result (embed_texts Stub.ext ["silent"] Fake.world) ≠ Ok (v :: vs))
  ∧ (world (_search Stub.ext "silent" 5 Fake.world)
     = log (EmbeddingsCreate EMBED_MODEL ["silent"]) Fake.world
     ∧ result (_search Stub.ext "silent" 5 Fake.world)
       = match result (embed_texts Stub.ext ["silent"] Fake.world) with
         | Raise e => Raise e
         | Ok _ => Raise IndexError
         end).
Proof.
  assert (H : ∀ v vs, result (embed_texts Stub.ext ["silent"] Fake.world) ≠ Ok (v :: vs)).
  { intros v vs Hv. vm_compute in Hv. discriminate Hv. }
  split; [exact H|]. exact (search_without_vector Stub.ext "silent" 5 Fake.world H).
Defined.

(** Retrievals on a server that has ["docs"], on one that has not and
    accepts it, and on one that refuses a collection of 3072 dimensions. *)
Example search_raises_with_collection :
  _search Fake.ext "what?" 5 Fake.world
  = (Raise missing_collection_name,
     log (CollectionExists "docs") (log (EmbeddingsCreate EMBED_MODEL ["what?"]) Fake.world)).
Proof. evaluate. Qed.

Example search_raises_after_creating :
  result (_search Fake.ext "what?" 5 Fake.empty_world) = Raise missing_collection_name
  ∧ server (world (_search Fake.ext "what?" 5 Fake.empty_world)) !! "docs"
    = Some (fresh 3072).
Proof. split; evaluate. Qed.

Example search_raises_refused :
  result (_search Stub.small "what?" 5 Fake.empty_world) = Raise (UnexpectedResponse 422)
  ∧ server (world (_search Stub.small "what?" 5 Fake.empty_world)) = ∅.
Proof. split; evaluate. Qed.

Lemma query_failure_cases_witness :
  let event := {| event_question := None; event_top_k := Some (JInt 3) |} in
  let s := Stub.session Fake.world in
  rag_query_pdf_ai Stub.ext Stub.assistant event s = (Failed (KeyError (JStr "question")), s)
  ∧ ((event_question event = None
      ∧ KeyError (JStr "question") = KeyError (JStr "question") ∧ s = s)
     ∨ (∃ q, event_question event = Some q
          ∧ py_int (default (JInt 5) (event_top_k event)) = Failed (KeyError (JStr "question"))
          ∧ s = s)
     ∨ (∃ q k e', event_question event = Some q
          ∧ py_int (default (JInt 5) (event_top_k event)) = Done k
          ∧ KeyError (JStr "question") = Py e'
          ∧ _search Stub.ext q k (session_world s) = (Raise e', session_world s)
          ∧ inferences s = inferences s)).
Proof.
  intros event s. split; [reflexivity|].
  apply (query_failure_cases Stub.ext Stub.assistant event s). reflexivity.
Defined.

(** [int] and the reading of a completion, as Python computes them. *)
Example int_of_numbers :
  py_int (JInt 7) = Done 7 ∧ py_int (JBool true) = Done 1
  ∧ py_int (JFloat 5.5) = Done 5 ∧ py_int (JFloat (-5.5)) = Done (-5)
  ∧ py_int (JFloat 0x1p70) = Done 1180591620717411303424
  ∧ py_int (JFloat nan) = Failed ValueError
  ∧ py_int (JFloat infinity) = Failed OverflowError.
Proof. repeat split; evaluate. Qed.

Example int_of_texts :
  int_of_text " 42 " = Some 42 ∧ int_of_text "-7" = Some (-7)
  ∧ int_of_text "1_000" = Some 1000 ∧ int_of_text "007" = Some 7
  ∧ int_of_text (decode [217; 163; 217; 164]) = Some 34
  ∧ int_of_text (decode [194; 160; 53; 227; 128; 128]) = Some 5
  ∧ int_of_text "" = None ∧ int_of_text "5.0" = None ∧ int_of_text "1__0" = None
  ∧ int_of_text "_1" = None ∧ int_of_text "1_" = None ∧ int_of_text "- 1" = None
  ∧ int_of_text "0x10" = None ∧ int_of_text (decode [28; 53]) = None
  ∧ int_of_text (string_of_list_ascii (replicate 4301 "0"%char)) = None.
Proof. repeat split; evaluate. Qed.

Example answer_of_completion :
  answer_of Stub.completion = Done "The answer."
  ∧ answer_of (JDict ∅) = Failed (KeyError (JStr "choices"))
  ∧ answer_of (JDict {[ "choices" := JList [] ]}) = Failed (Py IndexError)
  ∧ answer_of (JDict {[ "choices" := JList [JDict {[ "message" :=
                 JDict {[ "content" := JNull ]} ]}] ]})
    = Failed (AttributeError "'NoneType' object has no attribute 'strip'")
  ∧ answer_of (JDict {[ "choices" := JNull ]})
    = Failed (Py (TypeError "'NoneType' object is not subscriptable")).
Proof. repeat split; evaluate. Qed.

(** The three ways at concrete events. *)
Example query_with_text_for_top_k :
  rag_query_pdf_ai Stub.ext Stub.assistant
    {| event_question := Some "what?"; event_top_k := Some (JStr "five") |}
    (Stub.session Fake.world)
  = (Failed ValueError, Stub.session Fake.world).
Proof. evaluate. Qed.

Example query_with_null_top_k :
  (rag_query_pdf_ai Stub.ext Stub.assistant
     {| event_question := Some "what?"; event_top_k := Some JNull |}
     (Stub.session Fake.world)).1
  = Failed (Py (TypeError ("int() argument must be a string, a bytes-like object or "
                           +:+ "a real number, not 'NoneType'"))).
Proof. evaluate. Qed.

Example query_with_numeral_for_top_k :
  rag_query_pdf_ai Stub.ext Stub.assistant
    {| event_question := Some "what?"; event_top_k := Some (JStr " 3 ") |}
    (Stub.session Fake.world)
  = (Failed (Py missing_collection_name),
     {| session_world := world (_search Stub.ext "what?" 3 Fake.world); inferences := [] |}).
Proof. evaluate. Qed.

Lemma stub_goes_on last i :
  (i < 2)%nat →
  goes_on (Stub.dashboard last) "ev1" 120 (clock (Stub.dashboard last) 0)
    (turns (Stub.dashboard last) "ev1" 0.5 i (started Stub.browser)).
Proof.
  intros Hi. exists (Some [Stub.running]).
  destruct i as [|[|i]]; [| |lia]; (split; [reflexivity|]); split; [done | evaluate | done | evaluate].
Qed.

Lemma wait_returns_output_witness :
  let d := Stub.dashboard Stub.finished in
  let start := clock d (clock_reads Stub.browser) in
  ((∀ i, (i < 2)%nat →
      goes_on d "ev1" 120 start (turns d "ev1" 0.5 i (started Stub.browser)))
   ∧ http_get d (requests (turns d "ev1" 0.5 2 (started Stub.browser))) (runs_url d "ev1")
     = Ok (Some [Stub.finished; Stub.running])
   ∧ succeeded (run_status Stub.finished) = true
   ∧ (2 < 10)%nat)
  ∧ wait_for_run_output d 10 "ev1" 120 0.5 Stub.browser
    = (Done (Some (output_of Stub.finished)),
       {| requests := requests Stub.browser ++ replicate 3 (runs_url d "ev1");
          clock_reads := S (clock_reads Stub.browser + 2);
          sleeps := sleeps Stub.browser ++ replicate 2 0.5%float |}).
Proof.
  intros d start.
  split; [split; [apply stub_goes_on | split; [reflexivity | split; [evaluate | lia]]]|].
  apply (wait_returns_output d "ev1" 120 0.5 Stub.browser 2 10 Stub.finished [Stub.running]);
    [apply stub_goes_on | reflexivity | evaluate | lia].
Defined.

Lemma wait_raises_on_failed_run_witness :
  let d := Stub.dashboard Stub.cancelled in
  let start := clock d (clock_reads Stub.browser) in
  ((∀ i, (i < 2)%nat →
      goes_on d "ev1" 120 start (turns d "ev1" 0.5 i (started Stub.browser)))
   ∧ http_get d (requests (turns d "ev1" 0.5 2 (started Stub.browser))) (runs_url d "ev1")
     = Ok (Some [Stub.cancelled; Stub.running])
   ∧ failed (run_status Stub.cancelled) = true
   ∧ (2 < 10)%nat)
  ∧ (wait_for_run_output d 10 "ev1" 120 0.5 Stub.browser).1
    = Failed (RuntimeError ("Function run " +:+ py_str (run_status Stub.cancelled))).
Proof.
  intros d start.
  split; [split; [apply stub_goes_on | split; [reflexivity | split; [evaluate | lia]]]|].
  apply (wait_raises_on_failed_run d "ev1" 120 0.5 Stub.browser 2 10 Stub.cancelled
           [Stub.running]); [apply stub_goes_on | reflexivity | evaluate | lia].
Defined.

Lemma wait_terminates_witness :
  let d := Stub.dashboard Stub.running in
  overdue d 0.75 (clock d (clock_reads Stub.browser))
    (turns d "ev1" 0.5 1 (started Stub.browser)) = true
  ∧ ∃ r b', r ≠ Done None
            ∧ ∀ fuel, (1 < fuel)%nat →
                wait_for_run_output d fuel "ev1" 0.75 0.5 Stub.browser = (r, b').
Proof.
  intros d. split; [evaluate|].
  apply (wait_terminates d "ev1" 0.75 0.5 Stub.browser 1). evaluate.
Defined.

Example wait_times_out :
  (wait_for_run_output (Stub.dashboard Stub.running) 10 "ev1" 0.75 0.5 Stub.browser).1
  = Failed (TimeoutError "Timed out waiting for run output (last status: Running)").
Proof. evaluate. Qed.
